(** * stress_test.py: the run loop, the keypress listener and their shared flag

    The program runs a test command in a loop on the main thread (the
    controller) while a daemon thread (the listener) waits for a keypress and
    then sets [stop_signal["stop"]].  The embedding below is a small-step
    interleaving semantics: one step function per thread over a shared
    state, an explicit scheduler choice per step, and a trace of the
    observable actions (prints, flag accesses, invocations, input, exit).

    Everything the operating system decides (what each call of
    [subprocess.run] returns, what the terminal calls of the listener do,
    whether input ever arrives) is a field of the [world] the program runs
    in; when the listener's input arrives is decided by the schedule. *)

From Stdlib Require Import List ZArith String Ascii Bool Arith Lia DecimalString.
Import ListNotations.

Local Open Scope list_scope.

(** ** The world the harness runs in *)

(** Errors [subprocess.run] can raise, as [main] tells them apart:
    [except FileNotFoundError] first, then [except Exception as e] whose
    [str(e)] is printed.  What [except Exception] does not catch
    (KeyboardInterrupt, SystemExit) ends the process from outside and is not
    part of the model. *)
Inductive run_error :=
| FileNotFoundError
| OtherException (text : string).

(** What one call [subprocess.run(TEST_COMMAND, capture_output=True,
    text=True, check=False)] does: it returns a completed process, raises,
    or never returns (the harness sets no timeout). *)
Inductive run_result :=
| CompletedProcess (returncode : Z) (stdout stderr : string)
| RunRaises (e : run_error)
| RunHangs.

(** Exceptions inside [listen_for_keypress]. *)
Inductive listener_error :=
| ImportError
| TermiosError
| UnboundLocalError
| EOFError
| OtherError.

(** A call that returns at once. *)
Inductive outcome :=
| Ok
| Raises (e : listener_error).

(** A blocking read: text arrives, the read raises, or nothing ever comes. *)
Inductive blocking :=
| Arrives (text : string)
| Fails (e : listener_error)
| NeverArrives.

(** The calls [listen_for_keypress] makes, in source order. *)
Record terminal := mkTerminal {
  import_tty : outcome;
  import_termios : outcome;
  stdin_fileno : outcome;
  tcgetattr : outcome;
  setcbreak : outcome;
  stdin_read1 : blocking;
  tcsetattr : outcome;
  input_line : blocking
}.

(** [print_raises text] is what [print(text)] does with a captured stream:
    [None] when the console takes the text, [Some e] when the call raises
    (UnicodeEncodeError when the text cannot be encoded for the console), [e]
    being the [str] of the exception; nothing of the text is then written.
    The lines the program prints from its own text, its command line and the
    text of an exception are taken to print. *)
Record world := mkWorld {
  sys_executable : string;
  subprocess_run : nat -> run_result;   (* the k-th call, k counted from 1 *)
  term : terminal;
  print_raises : string -> option string
}.

(** [TEST_COMMAND = [sys.executable, "run_tests.py"]] *)
Definition TEST_COMMAND (w : world) : list string :=
  [sys_executable w; "run_tests.py"%string].

(** ** What is printed *)

Inductive tid := Controller | Listener.

(** One constructor per [print] call of the source, with the values its
    format string interpolates. *)
Inductive message :=
| MsgStarting
| MsgTestCommand (cmd : list string)
| MsgRun (run_count : nat)
| MsgPassed
| MsgFailed (returncode : Z)
| MsgStdoutHeader
| MsgStderrHeader
| MsgText (text : string)
| MsgNotFound (cmd : list string)
| MsgHint
| MsgUnexpected (text : string)
| MsgFinished
| MsgFailureDetected
| MsgAllPassed (run_count : nat)
| MsgKeypress.

Definition str_nat (n : nat) : string := NilEmpty.string_of_uint (Nat.to_uint n).
Definition str_Z (z : Z) : string := NilEmpty.string_of_int (Z.to_int z).
Definition join (sep : string) (l : list string) : string := String.concat sep l.
Definition newline : string := String (Ascii.ascii_of_nat 10) EmptyString.

(** The text handed to [print]. *)
Definition render (m : message) : string :=
  match m with
  | MsgStarting => "--- Starting stress test. Press any key to stop gracefully. ---"
  | MsgTestCommand cmd => "--- Test command: " ++ join " " cmd ++ " ---"
  | MsgRun n => newline ++ "--- [ Run " ++ str_nat n ++ " ] ---"
  | MsgPassed => "--- Result: PASSED ---"
  | MsgFailed rc => "--- Result: FAILED (Exit Code: " ++ str_Z rc ++ ") ---"
  | MsgStdoutHeader => newline ++ "--- STDOUT ---"
  | MsgStderrHeader => newline ++ "--- STDERR ---"
  | MsgText text => text
  | MsgNotFound cmd => "--- ERROR: Command not found: '" ++ join " " cmd ++ "' ---"
  | MsgHint => "--- Please ensure you are in the correct directory and the test script exists. ---"
  | MsgUnexpected text => "--- An unexpected error occurred: " ++ text ++ " ---"
  | MsgFinished => newline ++ "--- Stress test finished. ---"
  | MsgFailureDetected => "--- Failure detected. ---"
  | MsgAllPassed n => "--- All " ++ str_nat n ++ " runs passed successfully. ---"
  | MsgKeypress => newline ++ "--- Keypress detected. Stopping after current test run... ---"
  end%string.

(** ** Observable actions *)

Inductive event :=
| EvPrint (who : tid) (m : message)
| EvThreadStart                              (* keypress_thread.start() *)
| EvFlagRead (b : bool)                      (* stop_signal["stop"] in the while test *)
| EvFlagWrite                                (* stop_flag["stop"] = True *)
| EvInvokeStart (seq_no : nat)               (* subprocess.run is entered *)
| EvInvokeEnd (seq_no : nat) (r : run_result) (* subprocess.run returns or raises *)
| EvKey (text : string)                      (* sys.stdin.read(1) returned *)
| EvLine (text : string)                     (* input() returned *)
| EvExit (code : Z).                         (* sys.exit(code) *)

(** ** The shared state *)

Inductive main_pc :=
| MStart                 (* entering main *)
| MLoopTest              (* at [while not stop_signal["stop"]] *)
| MLoopBody              (* the test let the iteration in; at [run_count += 1] *)
| MInvoking              (* inside subprocess.run *)
| MSummary               (* after the loop *)
| MExited (code : Z).

Inductive listener_pc :=
| LNotStarted
| LSetup                               (* entering the outer try *)
| LReadKey                             (* blocked in sys.stdin.read(1) *)
| LInput                               (* in the except handler, blocked in input() *)
| LSetFlag (pending : option listener_error)   (* outer finally, first statement *)
| LPrint (pending : option listener_error)     (* outer finally, second statement *)
| LFinished (pending : option listener_error).

(** [stop] is the one entry of the dict [stop_signal]; the program only ever
    reads and writes it under the literal key ["stop"].  [run_count] and
    [has_failed] are the locals of [main]. *)
Record state := mkState {
  stop : bool;
  run_count : nat;
  has_failed : bool;
  mpc : main_pc;
  lpc : listener_pc;
  trace : list event
}.

Definition init : state :=
  {| stop := false; run_count := 0; has_failed := false;
     mpc := MStart; lpc := LNotStarted; trace := [] |}.

(** ** The listener: [listen_for_keypress] *)

(** [except (ImportError, termios.error):] the tuple is evaluated when an
    exception reaches the clause; [termios] is a local of the function, bound
    only once [import termios] has run, so evaluating [termios.error] before
    that raises UnboundLocalError in place of the exception being handled.
    An exception that matches enters the handler ([input()]); any other one
    goes on to the outer [finally] still pending. *)
Definition except_clause (termios_bound : bool) (e : listener_error) : listener_pc :=
  if termios_bound then
    match e with
    | ImportError | TermiosError => LInput
    | _ => LSetFlag (Some e)
    end
  else LSetFlag (Some UnboundLocalError).

(** The inner [finally: termios.tcsetattr(fd, termios.TCSADRAIN, old_settings)];
    an exception it raises replaces the pending one. *)
Definition inner_finally (t : terminal) (pending : option listener_error)
  : option listener_error :=
  match tcsetattr t with
  | Ok => pending
  | Raises e => Some e
  end.

(** Leaving the inner try statement, with or without a pending exception. *)
Definition leave_inner_try (t : terminal) (pending : option listener_error) : listener_pc :=
  match inner_finally t pending with
  | None => LSetFlag None
  | Some e => except_clause true e
  end.

(** From the start of the outer try up to the blocking [sys.stdin.read(1)];
    [setcbreak] stands for [tty.setcbreak(sys.stdin.fileno())]. *)
Definition listener_setup (t : terminal) : listener_pc :=
  match import_tty t with
  | Raises e => except_clause false e
  | Ok =>
    match import_termios t with
    | Raises e => except_clause false e
    | Ok =>
      match stdin_fileno t with
      | Raises e => except_clause true e
      | Ok =>
        match tcgetattr t with
        | Raises e => except_clause true e
        | Ok =>
          match setcbreak t with
          | Raises e => leave_inner_try t (Some e)
          | Ok => LReadKey
          end
        end
      end
    end
  end.

Definition listener_moves (s : state) (pc : listener_pc) (evs : list event) : state :=
  {| stop := stop s; run_count := run_count s; has_failed := has_failed s;
     mpc := mpc s; lpc := pc; trace := trace s ++ evs |}.

(** One step of the listener thread; [None] when it cannot move (not started,
    blocked with nothing to read, finished, or the process has exited: the
    thread is a daemon). *)
Definition listener_step (w : world) (s : state) : option state :=
  match mpc s with
  | MExited _ => None
  | _ =>
    match lpc s with
    | LNotStarted => None
    | LSetup => Some (listener_moves s (listener_setup (term w)) [])
    | LReadKey =>
      match stdin_read1 (term w) with
      | Arrives c => Some (listener_moves s (leave_inner_try (term w) None) [EvKey c])
      | Fails e => Some (listener_moves s (leave_inner_try (term w) (Some e)) [])
      | NeverArrives => None
      end
    | LInput =>
      match input_line (term w) with
      | Arrives l => Some (listener_moves s (LSetFlag None) [EvLine l])
      | Fails e => Some (listener_moves s (LSetFlag (Some e)) [])
      | NeverArrives => None
      end
    | LSetFlag p =>
      Some {| stop := true; run_count := run_count s; has_failed := has_failed s;
              mpc := mpc s; lpc := LPrint p; trace := trace s ++ [EvFlagWrite] |}
    | LPrint p => Some (listener_moves s (LFinished p) [EvPrint Listener MsgKeypress])
    | LFinished _ => None
    end
  end.

(** ** The controller: [main] *)

(** What the loop body does with the result of [subprocess.run]: the events it
    appends, the new [has_failed] and where control goes. *)
Definition passed (r : run_result) : bool :=
  match r with
  | CompletedProcess rc _ _ => (rc =? 0)%Z
  | _ => false
  end.

Definition failed (r : run_result) : bool :=
  match r with
  | CompletedProcess rc _ _ => negb (rc =? 0)%Z
  | RunRaises _ => true
  | RunHangs => false
  end.

(** The prints of lines 74 and 76 are inside the [try]: when one raises, the
    rest of the report is skipped and [except Exception as e] prints the
    unexpected-error line (and sets [has_failed], as the skipped line 77
    would have). *)
Definition print_captured (w : world) (text : string) (rest : list event) : list event :=
  match print_raises w text with
  | None => EvPrint Controller (MsgText text) :: rest
  | Some e => [EvPrint Controller (MsgUnexpected e)]
  end.

Definition failure_report (w : world) (r : run_result) : list event :=
  match r with
  | CompletedProcess rc out err =>
      EvPrint Controller (MsgFailed rc)
      :: EvPrint Controller MsgStdoutHeader
      :: print_captured w out
           (EvPrint Controller MsgStderrHeader :: print_captured w err [])
  | RunRaises FileNotFoundError =>
      [EvPrint Controller (MsgNotFound (TEST_COMMAND w)); EvPrint Controller MsgHint]
  | RunRaises (OtherException text) => [EvPrint Controller (MsgUnexpected text)]
  | RunHangs => []
  end.

Definition summary (hf : bool) (n : nat) : list event :=
  if hf
  then [EvPrint Controller MsgFinished; EvPrint Controller MsgFailureDetected; EvExit 1]
  else [EvPrint Controller MsgFinished; EvPrint Controller (MsgAllPassed n); EvExit 0].

Definition main_moves (s : state) (n : nat) (hf : bool) (pc : main_pc) (evs : list event)
  : state :=
  {| stop := stop s; run_count := n; has_failed := hf;
     mpc := pc; lpc := lpc s; trace := trace s ++ evs |}.

(** One step of the main thread; [None] when it cannot move (the invocation in
    progress never returns, or the process has exited).  A step runs from one
    point where the other thread matters to the next: the while test (the one
    read of the flag) is a step of its own, so the listener can move between
    the test and the start of the invocation, and between the start of an
    invocation and its end. *)
Definition main_step (w : world) (s : state) : option state :=
  match mpc s with
  | MStart =>
      Some {| stop := stop s; run_count := 0; has_failed := false;
              mpc := MLoopTest; lpc := LSetup;
              trace := trace s ++ [EvPrint Controller MsgStarting;
                                   EvPrint Controller (MsgTestCommand (TEST_COMMAND w));
                                   EvThreadStart] |}
  | MLoopTest =>
      if stop s
      then Some (main_moves s (run_count s) (has_failed s) MSummary [EvFlagRead true])
      else Some (main_moves s (run_count s) (has_failed s) MLoopBody [EvFlagRead false])
  | MLoopBody =>
      let n := S (run_count s) in
      Some (main_moves s n (has_failed s) MInvoking
              [EvPrint Controller (MsgRun n); EvInvokeStart n])
  | MInvoking =>
      let n := run_count s in
      let r := subprocess_run w n in
      match r with
      | RunHangs => None
      | CompletedProcess rc _ _ =>
          if (rc =? 0)%Z
          then Some (main_moves s n (has_failed s) MLoopTest
                       [EvInvokeEnd n r; EvPrint Controller MsgPassed])
          else Some (main_moves s n true MSummary (EvInvokeEnd n r :: failure_report w r))
      | RunRaises _ =>
          Some (main_moves s n true MSummary (EvInvokeEnd n r :: failure_report w r))
      end
  | MSummary =>
      Some (main_moves s (run_count s) (has_failed s)
              (MExited (if has_failed s then 1 else 0)%Z)
              (summary (has_failed s) (run_count s)))
  | MExited _ => None
  end.

(** ** Interleaved executions *)

Definition step (w : world) (t : tid) (s : state) : option state :=
  match t with
  | Controller => main_step w s
  | Listener => listener_step w s
  end.

(** A schedule entry that names a thread which cannot move changes nothing. *)
Definition step_or_stay (w : world) (t : tid) (s : state) : state :=
  match step w t s with
  | Some s' => s'
  | None => s
  end.

Fixpoint exec (w : world) (sched : list tid) (s : state) : state :=
  match sched with
  | [] => s
  | t :: rest => exec w rest (step_or_stay w t s)
  end.

Definition tid_eqb (a b : tid) : bool :=
  match a, b with
  | Controller, Controller | Listener, Listener => true
  | _, _ => false
  end.

(** How many turns a schedule gives the controller. *)
Definition controller_turns (sched : list tid) : nat :=
  List.length (filter (tid_eqb Controller) sched).

(** ** Reading a trace *)

Definition by_controller (e : event) : bool :=
  match e with
  | EvPrint Controller _ | EvThreadStart | EvFlagRead _
  | EvInvokeStart _ | EvInvokeEnd _ _ | EvExit _ => true
  | _ => false
  end.

(** The controller's own actions, in order. *)
Definition controller_view (tr : list event) : list event := filter by_controller tr.

(** The sequence numbers of the invocations started, in order. *)
Fixpoint invocations (tr : list event) : list nat :=
  match tr with
  | [] => []
  | EvInvokeStart n :: rest => n :: invocations rest
  | _ :: rest => invocations rest
  end.

Fixpoint flag_writes (tr : list event) : nat :=
  match tr with
  | [] => 0
  | EvFlagWrite :: rest => S (flag_writes rest)
  | _ :: rest => flag_writes rest
  end.

(** Operator input: a key read by [sys.stdin.read(1)] (the empty text is end
    of file, not a key) or a line read by [input()]. *)
Definition operator_input (e : event) : bool :=
  match e with
  | EvKey c => negb (String.eqb c EmptyString)
  | EvLine _ => true
  | _ => false
  end.

Definition failure_recorded (tr : list event) : Prop :=
  exists k r, In (EvInvokeEnd k r) tr /\ failed r = true.

(** ** What the controller has done, by where it stands *)

Definition prelude (w : world) : list event :=
  [EvPrint Controller MsgStarting;
   EvPrint Controller (MsgTestCommand (TEST_COMMAND w));
   EvThreadStart].

Definition attempt (n : nat) : list event :=
  [EvFlagRead false; EvPrint Controller (MsgRun n); EvInvokeStart n].

Definition passed_iteration (w : world) (k : nat) : list event :=
  attempt k ++ [EvInvokeEnd k (subprocess_run w k); EvPrint Controller MsgPassed].

Definition passed_iterations (w : world) (n : nat) : list event :=
  flat_map (passed_iteration w) (seq 1 n).

Definition failed_iteration (w : world) (n : nat) : list event :=
  attempt n ++ EvInvokeEnd n (subprocess_run w n) :: failure_report w (subprocess_run w n).

(** The loop as a whole once it has been left: by [break] after a failure in
    iteration [n], or by the while test reading the flag as true after [n]
    passed iterations. *)
Definition loop_exit (w : world) (hf : bool) (n : nat) : list event :=
  if hf
  then passed_iterations w (pred n) ++ failed_iteration w n
  else passed_iterations w n ++ [EvFlagRead true].

Definition expected_view (w : world) (s : state) : list event :=
  let n := run_count s in
  match mpc s with
  | MStart => []
  | MLoopTest => prelude w ++ passed_iterations w n
  | MLoopBody => prelude w ++ passed_iterations w n ++ [EvFlagRead false]
  | MInvoking => prelude w ++ passed_iterations w (pred n) ++ attempt n
  | MSummary => prelude w ++ loop_exit w (has_failed s) n
  | MExited _ => prelude w ++ loop_exit w (has_failed s) n ++ summary (has_failed s) n
  end.

Definition all_passed (w : world) (n : nat) : Prop :=
  forall k, 1 <= k <= n -> passed (subprocess_run w k) = true.

Definition loop_left (w : world) (s : state) : Prop :=
  if has_failed s
  then 1 <= run_count s /\ all_passed w (pred (run_count s))
       /\ failed (subprocess_run w (run_count s)) = true
  else all_passed w (run_count s) /\ stop s = true.

Definition main_ok (w : world) (s : state) : Prop :=
  match mpc s with
  | MStart => run_count s = 0 /\ has_failed s = false
  | MLoopTest | MLoopBody => has_failed s = false /\ all_passed w (run_count s)
  | MInvoking =>
      has_failed s = false /\ 1 <= run_count s /\ all_passed w (pred (run_count s))
  | MSummary => loop_left w s
  | MExited c => c = (if has_failed s then 1 else 0)%Z /\ loop_left w s
  end.

Definition flag_written (pc : listener_pc) : bool :=
  match pc with
  | LPrint _ | LFinished _ => true
  | _ => false
  end.

Definition flag_ok (s : state) : Prop :=
  stop s = flag_written (lpc s)
  /\ flag_writes (trace s) = (if stop s then 1 else 0)
  /\ (mpc s = MStart -> lpc s = LNotStarted).

Record Inv (w : world) (s : state) : Prop := mkInv {
  inv_main : main_ok w s;
  inv_view : controller_view (trace s) = expected_view w s;
  inv_seq : invocations (trace s) = seq 1 (run_count s);
  inv_flag : flag_ok s
}.

(** The one invocation the controller is committed to: it has passed the
    while test and not yet entered [subprocess.run]. *)
Definition pending_start (s : state) : nat :=
  match mpc s with
  | MLoopBody => 1
  | _ => 0
  end.

(** The same state with another value of the flag. *)
Definition set_stop (b : bool) (s : state) : state :=
  {| stop := b; run_count := run_count s; has_failed := has_failed s;
     mpc := mpc s; lpc := lpc s; trace := trace s |}.

(** ** Sample worlds and schedules *)

Definition tty_with_key : terminal :=
  mkTerminal Ok Ok Ok Ok Ok (Arrives "q") Ok NeverArrives.

Definition tty_silent : terminal :=
  mkTerminal Ok Ok Ok Ok Ok NeverArrives Ok NeverArrives.

(** Standard input is not a terminal and is at end of file (a pipe from
    /dev/null, a CI job): [termios.tcgetattr] raises [termios.error], [input()]
    raises EOFError. *)
Definition no_terminal : terminal :=
  mkTerminal Ok Ok Ok (Raises TermiosError) Ok NeverArrives Ok (Fails EOFError).

(** No [termios] module (Windows): [import tty] raises ImportError; a line
    would be there for [input()] to read. *)
Definition no_termios_module : terminal :=
  mkTerminal (Raises ImportError) (Raises ImportError) Ok Ok Ok NeverArrives Ok
    (Arrives "stop").

Definition always_passes : world :=
  {| sys_executable := "/usr/bin/python3";
     subprocess_run := fun _ => CompletedProcess 0 "ok" EmptyString;
     term := tty_with_key;
     print_raises := fun _ => None |}.

Definition fourth_run_fails : world :=
  {| sys_executable := "/usr/bin/python3";
     subprocess_run := fun k =>
       if k <=? 3 then CompletedProcess 0 "ok" EmptyString
       else CompletedProcess 2 "1 failed" "assertion failed";
     term := tty_with_key;
     print_raises := fun _ => None |}.

Definition command_missing : world :=
  {| sys_executable := "/nonexistent/python3";
     subprocess_run := fun _ => RunRaises FileNotFoundError;
     term := tty_silent;
     print_raises := fun _ => None |}.

(** The same with a key to be read. *)
Definition command_missing_with_key : world :=
  {| sys_executable := "/nonexistent/python3";
     subprocess_run := fun _ => RunRaises FileNotFoundError;
     term := tty_with_key;
     print_raises := fun _ => None |}.

(** The first run fails and its stdout cannot be encoded for the console. *)
Definition unprintable_stdout : world :=
  {| sys_executable := "/usr/bin/python3";
     subprocess_run := fun _ => CompletedProcess 3 "1 failed" "assertion failed";
     term := tty_silent;
     print_raises := fun text =>
       if String.eqb text "1 failed"
       then Some "'ascii' codec can't encode character"%string
       else None |}.

Definition passes_without_terminal : world :=
  {| sys_executable := "/usr/bin/python3";
     subprocess_run := fun _ => CompletedProcess 0 "ok" EmptyString;
     term := no_terminal;
     print_raises := fun _ => None |}.

Definition passes_without_termios : world :=
  {| sys_executable := "C:/Python/python.exe";
     subprocess_run := fun _ => CompletedProcess 0 "ok" EmptyString;
     term := no_termios_module;
     print_raises := fun _ => None |}.

(** The controller's three turns of one passing iteration: the while test,
    the start of the invocation, its completion. *)
Definition iteration : list tid := [Controller; Controller; Controller].

(** The listener's three turns up to the flag: set-up, the key, the write. *)
Definition keypress : list tid := [Listener; Listener; Listener].

Definition iterations (n : nat) : list tid := List.concat (repeat iteration n).

Ltac in_explicit H :=
  simpl in H;
  repeat match type of H with
         | _ \/ _ => destruct H as [H|H]
         | False => contradiction
         | _ = _ => first [discriminate H | inversion H; subst; clear H]
         end.

Ltac in_trace := vm_compute; repeat (first [left; reflexivity | right]).

(** ** More ways to read a state and a trace *)

(** The listener has not got past its blocking read. *)
Definition waiting (pc : listener_pc) : bool :=
  match pc with
  | LNotStarted | LSetup | LReadKey | LInput => true
  | _ => false
  end.

(** The listener is in its outer [finally] or past it with no exception
    pending. *)
Definition finishing_cleanly (pc : listener_pc) : bool :=
  match pc with
  | LSetFlag None | LPrint None | LFinished None => true
  | _ => false
  end.

Definition is_input (e : event) : bool :=
  match e with
  | EvKey _ | EvLine _ => true
  | _ => false
  end.

Definition is_acknowledgement (e : event) : bool :=
  match e with
  | EvPrint Listener MsgKeypress => true
  | _ => false
  end.

(** How many times "Keypress detected" has been printed. *)
Definition acknowledgements (tr : list event) : nat :=
  List.length (filter is_acknowledgement tr).

Definition terminal_ready (t : terminal) : Prop :=
  import_tty t = Ok /\ import_termios t = Ok /\ stdin_fileno t = Ok
  /\ tcgetattr t = Ok /\ setcbreak t = Ok.

Definition healthy_terminal (read : blocking) (line : blocking) : terminal :=
  mkTerminal Ok Ok Ok Ok Ok read Ok line.

(** The invocation for which [subprocess.run] never returns is the third. *)
Definition third_run_hangs : world :=
  {| sys_executable := "/usr/bin/python3";
     subprocess_run := fun k =>
       if k <=? 2 then CompletedProcess 0 "ok" EmptyString else RunHangs;
     term := tty_with_key;
     print_raises := fun _ => None |}.


Definition silent_passes : world :=
  {| sys_executable := "/usr/bin/python3";
     subprocess_run := fun _ => CompletedProcess 0 "ok" EmptyString;
     term := tty_silent;
     print_raises := fun _ => None |}.

(** Standard input is a pipe: [termios.tcgetattr] raises, [input()] reads
    the line that is written to the pipe. *)
Definition piped_line : world :=
  {| sys_executable := "/usr/bin/python3";
     subprocess_run := fun _ => CompletedProcess 0 "ok" EmptyString;
     term := mkTerminal Ok Ok Ok (Raises TermiosError) Ok NeverArrives Ok
               (Arrives "stop");
     print_raises := fun _ => None |}.


Definition finished (pc : listener_pc) : bool :=
  match pc with
  | LFinished _ => true
  | _ => false
  end.

(** * run_tests.py and build.py: scripts around external commands

    Both scripts run from top to bottom, print, ask the file system, call
    [subprocess.run] and may end early through [sys.exit].  A script is
    modelled as the list of actions it performs together with how it ends;
    what the operating system answers is a field of [os]. *)

Module Script.

Inductive stream := Stdout | Stderr.

Inductive action :=
| Print (to : stream) (text : string)      (* print(text, file=...) *)
| Call (argv : list string)                (* subprocess.run(argv, check=True, text=True) *)
| RmTree (path : string)                   (* shutil.rmtree(path) *)
| Remove (path : string).                  (* os.remove(path) *)

(** What [subprocess.run(argv, check=True, text=True)] meets: the child runs
    and exits (its output goes to the streams it inherits), the executable
    is not found, or the call raises something else. *)
Inductive call_result :=
| ChildExited (returncode : Z) (out err : string)
| ChildNotFound
| CallRaises.

Record os := mkOs {
  path_join : string -> list string -> string;   (* os.path.join(a, *rest) *)
  path_exists : string -> bool;                   (* os.path.exists *)
  path_isdir : string -> bool;                    (* os.path.isdir *)
  run : list string -> call_result;
  error_text : list string -> string;             (* str(e) of the exception caught *)
  rmtree_ok : string -> bool;                     (* false: shutil.rmtree raises *)
  remove_ok : string -> bool                      (* false: os.remove raises *)
}.

(** How a script ends early: [sys.exit(code)], or an exception nobody
    catches (the interpreter prints a traceback and exits with status 1). *)
Inductive ending :=
| SysExit (code : Z)
| Traceback.

Definition script (A : Type) : Type := (list action * (A + ending))%type.

Definition ret {A : Type} (a : A) : script A := ([], inl a).

Definition bind {A B : Type} (m : script A) (k : A -> script B) : script B :=
  match snd m with
  | inl a => (fst m ++ fst (k a), snd (k a))
  | inr e => (fst m, inr e)
  end.

Notation "c1 ;; c2" := (bind c1 (fun _ => c2)) (at level 61, right associativity).

Definition act (a : action) : script unit := ([a], inl tt).
Definition print (to : stream) (text : string) : script unit := act (Print to text).
Definition sys_exit {A : Type} (code : Z) : script A := ([], inr (SysExit code)).
Definition uncaught {A : Type} : script A := ([], inr Traceback).

Definition actions {A : Type} (r : script A) : list action := fst r.

(** The exit status of the interpreter when the script is its main program. *)
Definition status {A : Type} (r : script A) : Z :=
  match snd r with
  | inl _ => 0
  | inr (SysExit code) => code
  | inr Traceback => 1
  end.

(** [run_command], the same function in run_tests.py and in build.py. *)
Definition run_command (o : os) (command : list string) : script unit :=
  print Stdout ("--- Running: " ++ join " " command) ;;
  act (Call command) ;;
  match run o command with
  | ChildExited rc _ _ =>
      if (rc =? 0)%Z then ret tt
      else print Stderr ("--- Command failed: " ++ error_text o command) ;;
           sys_exit 1
  | ChildNotFound =>
      print Stderr ("--- Command failed: " ++ error_text o command) ;;
      sys_exit 1
  | CallRaises => uncaught
  end.

(** The commands handed to [subprocess.run], in order. *)
Fixpoint calls (acts : list action) : list (list string) :=
  match acts with
  | [] => []
  | Call argv :: rest => argv :: calls rest
  | _ :: rest => calls rest
  end.

(** The paths handed to [shutil.rmtree] and [os.remove], in order. *)
Fixpoint removals (acts : list action) : list string :=
  match acts with
  | [] => []
  | RmTree path :: rest => path :: removals rest
  | Remove path :: rest => path :: removals rest
  | _ :: rest => removals rest
  end.

Definition succeeds (o : os) (command : list string) : bool :=
  match run o command with
  | ChildExited rc _ _ => (rc =? 0)%Z
  | _ => false
  end.

(** [posixpath.join]: a component that starts with "/" restarts the path;
    otherwise it is appended, after a "/" unless the path so far is empty or
    ends with one. *)
Fixpoint ends_with_slash (s : string) : bool :=
  match s with
  | EmptyString => false
  | String c EmptyString => Ascii.eqb c "/"%char
  | String _ rest => ends_with_slash rest
  end.

Definition starts_with_slash (s : string) : bool :=
  match s with
  | String c _ => Ascii.eqb c "/"%char
  | EmptyString => false
  end.

Fixpoint posix_join (a : string) (rest : list string) : string :=
  match rest with
  | [] => a
  | b :: rest' =>
      posix_join
        (if starts_with_slash b then b
         else if (String.eqb a EmptyString || ends_with_slash a)%bool
              then a ++ b
              else a ++ "/" ++ b)%string
        rest'
  end.

End Script.

Module RunTests.
Import Script.

Definition test_executable_path (o : os) (build_dir : string) : string :=
  path_join o build_dir ["test"; "UnitTests"; "iterator_mutex_UT"; "iterator_mutex_UT"]%string.

(** [main], from after [parser.parse_args()]: [build_dir] is
    [args.build_dir], "build" unless --build-dir is given. *)
Definition main (o : os) (build_dir : string) : script unit :=
  let test_path := test_executable_path o build_dir in
  if negb (path_exists o test_path)
  then
    print Stderr ("Error: Test executable not found at '" ++ test_path ++ "'") ;;
    print Stderr "Please build the project first using 'python3 build.py conan'" ;;
    sys_exit 1
  else
    print Stdout ("--- Running tests for: " ++ test_path ++ " ---") ;;
    run_command o [test_path] ;;
    print Stdout "--- Tests finished successfully ---".


End RunTests.

Module Build.
Import Script.

Inductive subcommand := Conan | Cmake | Clean.

(** The namespace [parser.parse_args()] returns. *)
Record args := mkArgs {
  build_type : string;
  build_dir : string;
  command : subcommand
}.

Definition toolchain_file (o : os) (a : args) : string :=
  path_join o (build_dir a) ["conan"; "conan_toolchain.cmake"]%string.

Definition conan_install_cmd (a : args) : list string :=
  ["conan"; "install"; "."; "--output-folder=" ++ build_dir a;
   "--build=missing"; "-s:h"; "build_type=" ++ build_type a]%string.

Definition cmake_config_cmd (o : os) (a : args) : list string :=
  ["cmake"; "-S"; "."; "-B" ++ build_dir a;
   "-DCMAKE_TOOLCHAIN_FILE=" ++ toolchain_file o a;
   "-DCMAKE_BUILD_TYPE=" ++ build_type a]%string.

Definition cmake_build_cmd (a : args) : list string :=
  ["cmake"; "--build"; build_dir a]%string.

Definition handle_clean (o : os) (a : args) : script unit :=
  print Stdout ("--- Cleaning build files in '" ++ build_dir a ++ "' ---") ;;
  (if path_isdir o (build_dir a)
   then act (RmTree (build_dir a)) ;;
        (if rmtree_ok o (build_dir a) then ret tt else uncaught) ;;
        print Stdout ("Removed directory: " ++ build_dir a)
   else ret tt) ;;
  (if path_exists o "CMakeUserPresets.json"
   then act (Remove "CMakeUserPresets.json") ;;
        (if remove_ok o "CMakeUserPresets.json" then ret tt else uncaught) ;;
        print Stdout "Removed CMakeUserPresets.json"
   else ret tt) ;;
  print Stdout "--- Clean finished ---".

Definition configure_and_build (o : os) (a : args) : script unit :=
  run_command o (cmake_config_cmd o a) ;;
  run_command o (cmake_build_cmd a).

Definition handle_conan (o : os) (a : args) : script unit :=
  print Stdout ("--- Running Conan build (" ++ build_type a ++ ") ---") ;;
  run_command o (conan_install_cmd a) ;;
  configure_and_build o a ;;
  print Stdout "--- Conan build finished successfully ---".

(** [sys.exit(message)] prints the message to stderr and exits with
    status 1. *)
Definition handle_cmake (o : os) (a : args) : script unit :=
  print Stdout ("--- Running CMake build (" ++ build_type a ++ ") ---") ;;
  if negb (path_exists o (toolchain_file o a))
  then
    print Stderr ("Error: Toolchain not found at '" ++ toolchain_file o a
                  ++ "'. Run a 'conan' build first.") ;;
    sys_exit 1
  else
    configure_and_build o a ;;
    print Stdout "--- CMake build finished successfully ---".

(** [main], from after [parser.parse_args()]: [args.func(args)]. *)
Definition main (o : os) (a : args) : script unit :=
  match command a with
  | Conan => handle_conan o a
  | Cmake => handle_cmake o a
  | Clean => handle_clean o a
  end.

End Build.

(** ** The harness with run_tests.py as its test command *)


(** ** Sample operating systems *)

Definition binary_path : string := "build/test/UnitTests/iterator_mutex_UT/iterator_mutex_UT"%string.

(** The test binary is built and exits with status [rc]; the toolchain file
    is there; every other command succeeds. *)
Definition built_os (rc : Z) : Script.os :=
  {| Script.path_join := Script.posix_join;
     Script.path_exists := fun _ => true;
     Script.path_isdir := fun _ => true;
     Script.run := fun argv =>
       if list_eq_dec string_dec argv [binary_path]
       then Script.ChildExited rc "ran 3 tests"%string "boom"%string
       else Script.ChildExited 0 "done"%string EmptyString;
     Script.error_text := fun _ => "Command returned non-zero exit status"%string;
     Script.rmtree_ok := fun _ => true;
     Script.remove_ok := fun _ => true |}.

(** Nothing is built and no tool is installed. *)
Definition bare_os : Script.os :=
  {| Script.path_join := Script.posix_join;
     Script.path_exists := fun _ => false;
     Script.path_isdir := fun _ => false;
     Script.run := fun _ => Script.ChildNotFound;
     Script.error_text := fun _ => "No such file or directory"%string;
     Script.rmtree_ok := fun _ => true;
     Script.remove_ok := fun _ => true |}.

(** The Conan step works, the CMake configure step fails with status 1. *)
Definition configure_fails_os : Script.os :=
  {| Script.path_join := Script.posix_join;
     Script.path_exists := fun _ => true;
     Script.path_isdir := fun _ => true;
     Script.run := fun argv =>
       match argv with
       | cmd :: flag :: _ =>
           if (String.eqb cmd "cmake"%string && String.eqb flag "-S"%string)%bool
           then Script.ChildExited 1 EmptyString "CMake Error"%string
           else Script.ChildExited 0 "done"%string EmptyString
       | _ => Script.ChildExited 0 "done"%string EmptyString
       end;
     Script.error_text := fun _ => "Command returned non-zero exit status 1."%string;
     Script.rmtree_ok := fun _ => true;
     Script.remove_ok := fun _ => true |}.

Definition release_build (c : Build.subcommand) : Build.args :=
  Build.mkArgs "Release"%string "build"%string c.


(** The commands of a list that get attempted when each one is run only if
    all before it succeeded. *)
Fixpoint attempted (o : Script.os) (cmds : list (list string)) : list (list string) :=
  match cmds with
  | [] => []
  | c :: rest => c :: (if Script.succeeds o c then attempted o rest else [])
  end.

Ltac script_compute :=
  cbv [negb Script.bind Script.print Script.act Script.ret Script.sys_exit
       Script.uncaught Script.actions fst snd app];
  cbn [Script.calls Script.removals attempted forallb andb].

Ltac in_actions H :=
  simpl in H;
  repeat (destruct H as [H|H]; [try discriminate H|]);
  try contradiction.


(** How many turns a schedule gives the listener. *)
Definition listener_turns (sched : list tid) : nat :=
  List.length (filter (tid_eqb Listener) sched).

(** The listener's way to the flag when the key is read and nothing raises,
    and how many of its steps are left before the flag is written. *)
Definition on_key_path (pc : listener_pc) : bool :=
  match pc with
  | LSetup | LReadKey | LSetFlag None | LPrint None | LFinished None => true
  | _ => false
  end.

Definition steps_to_flag (pc : listener_pc) : nat :=
  match pc with
  | LSetup => 3
  | LReadKey => 2
  | LSetFlag _ => 1
  | _ => 0
  end.

(** * Properties *)

(** ** The printed text *)

Example render_run_header :
  render (MsgRun 12) = (newline ++ "--- [ Run 12 ] ---")%string.
Proof. reflexivity. Qed.

Example render_failed_signal :
  render (MsgFailed (-9)) = "--- Result: FAILED (Exit Code: -9) ---"%string.
Proof. reflexivity. Qed.

Example render_all_passed :
  render (MsgAllPassed 5) = "--- All 5 runs passed successfully. ---"%string.
Proof. reflexivity. Qed.

Example render_test_command :
  render (MsgTestCommand (TEST_COMMAND always_passes))
  = "--- Test command: /usr/bin/python3 run_tests.py ---"%string.
Proof. reflexivity. Qed.

Example render_not_found :
  render (MsgNotFound (TEST_COMMAND command_missing))
  = "--- ERROR: Command not found: '/nonexistent/python3 run_tests.py' ---"%string.
Proof. reflexivity. Qed.

Section Harness.

Variable w : world.

(** ** Lists of events *)

Lemma controller_view_app (a b : list event) :
  controller_view (a ++ b) = controller_view a ++ controller_view b.
Proof. apply filter_app. Qed.

Lemma invocations_app (a b : list event) :
  invocations (a ++ b) = invocations a ++ invocations b.
Proof.
  induction a as [|e a IH]; simpl; [reflexivity|].
  destruct e; simpl; rewrite IH; reflexivity.
Qed.

Lemma flag_writes_app (a b : list event) :
  flag_writes (a ++ b) = flag_writes a + flag_writes b.
Proof.
  induction a as [|e a IH]; simpl; [reflexivity|].
  destruct e; simpl; rewrite IH; reflexivity.
Qed.

Lemma failure_report_view (r : run_result) :
  controller_view (failure_report w r) = failure_report w r.
Proof.
  destruct r as [rc out err|[|text]|]; simpl; unfold print_captured;
    repeat match goal with
           | |- context [print_raises w ?x] => destruct (print_raises w x)
           end;
    reflexivity.
Qed.

Lemma failure_report_invocations (r : run_result) :
  invocations (failure_report w r) = [].
Proof.
  destruct r as [rc out err|[|text]|]; simpl; unfold print_captured;
    repeat match goal with
           | |- context [print_raises w ?x] => destruct (print_raises w x)
           end;
    reflexivity.
Qed.

Lemma failure_report_flag_writes (r : run_result) :
  flag_writes (failure_report w r) = 0.
Proof.
  destruct r as [rc out err|[|text]|]; simpl; unfold print_captured;
    repeat match goal with
           | |- context [print_raises w ?x] => destruct (print_raises w x)
           end;
    reflexivity.
Qed.

Lemma passed_iterations_S (n : nat) :
  passed_iterations w (S n) = passed_iterations w n ++ passed_iteration w (S n).
Proof.
  unfold passed_iterations.
  rewrite seq_S, flat_map_app. cbn [flat_map]. rewrite app_nil_r. reflexivity.
Qed.

Lemma all_passed_S (n : nat) :
  all_passed w n -> passed (subprocess_run w (S n)) = true -> all_passed w (S n).
Proof.
  intros Hn HS k Hk.
  destruct (Nat.eq_dec k (S n)) as [->|Hne]; [exact HS|].
  apply Hn. lia.
Qed.

Lemma passed_not_failed (r : run_result) : passed r = true -> failed r = false.
Proof.
  destruct r as [rc out err|e|]; simpl; try discriminate.
  intros ->. reflexivity.
Qed.

(** ** One step *)

(** The listener touches nothing of the controller's and can only raise the
    flag. *)
Lemma listener_step_frame (s s' : state) :
  listener_step w s = Some s' ->
  run_count s' = run_count s /\ has_failed s' = has_failed s /\ mpc s' = mpc s
  /\ (stop s = true -> stop s' = true)
  /\ controller_view (trace s') = controller_view (trace s)
  /\ invocations (trace s') = invocations (trace s).
Proof.
  unfold listener_step.
  destruct (mpc s) eqn:Hpc; try discriminate;
    (destruct (lpc s) eqn:Hl; try discriminate;
     [ | destruct (stdin_read1 (term w)); try discriminate
       | destruct (input_line (term w)); try discriminate | | ];
     intros [= <-]; simpl;
     rewrite ?controller_view_app, ?invocations_app; simpl;
     rewrite ?app_nil_r; auto 10).
Qed.

(** The controller never writes the flag. *)
Lemma main_step_stop (s s' : state) : main_step w s = Some s' -> stop s' = stop s.
Proof.
  unfold main_step. intros H.
  destruct (mpc s); try discriminate;
    [ | destruct (stop s) eqn:E
      | | destruct (subprocess_run w (run_count s)) as [rc out err|e|];
          [destruct (rc =? 0)%Z| |] | ];
    inversion H; subst; simpl; congruence.
Qed.

(** ** The invariant *)

Lemma except_clause_unwritten (b : bool) (e : listener_error) :
  flag_written (except_clause b e) = false.
Proof. destruct b, e; reflexivity. Qed.

Lemma leave_inner_try_unwritten (t : terminal) (p : option listener_error) :
  flag_written (leave_inner_try t p) = false.
Proof.
  unfold leave_inner_try.
  destruct (inner_finally t p); [apply except_clause_unwritten|reflexivity].
Qed.

Lemma listener_setup_unwritten (t : terminal) : flag_written (listener_setup t) = false.
Proof.
  unfold listener_setup.
  repeat match goal with
         | |- context [match ?x with Ok => _ | Raises _ => _ end] => destruct x
         end;
    auto using except_clause_unwritten, leave_inner_try_unwritten.
Qed.

Lemma main_ok_frame (s s' : state) :
  run_count s' = run_count s -> has_failed s' = has_failed s -> mpc s' = mpc s ->
  (stop s = true -> stop s' = true) ->
  main_ok w s -> main_ok w s'.
Proof.
  unfold main_ok, loop_left. intros -> -> -> Hstop.
  destruct (mpc s); auto; destruct (has_failed s); intuition auto.
Qed.

Lemma expected_view_frame (s s' : state) :
  run_count s' = run_count s -> has_failed s' = has_failed s -> mpc s' = mpc s ->
  expected_view w s' = expected_view w s.
Proof. unfold expected_view. intros -> -> ->. reflexivity. Qed.

Lemma listener_step_flag (s s' : state) :
  flag_ok s -> listener_step w s = Some s' -> flag_ok s'.
Proof.
  unfold flag_ok, listener_step. intros (Hw & Hn & Hs) H.
  destruct (mpc s) eqn:Hpc; try discriminate;
    try (rewrite Hs in H by reflexivity; discriminate);
    (destruct (lpc s) eqn:Hl; try discriminate;
     [ | destruct (stdin_read1 (term w)); try discriminate
       | destruct (input_line (term w)); try discriminate | | ];
     inversion H; subst; clear H; simpl in *;
     rewrite ?flag_writes_app, ?listener_setup_unwritten, ?leave_inner_try_unwritten;
     simpl; rewrite ?Hpc, ?Hw in *; simpl;
     (split; [reflexivity|split; [lia|discriminate]])).
Qed.

Lemma listener_step_inv (s s' : state) :
  Inv w s -> listener_step w s = Some s' -> Inv w s'.
Proof.
  intros [Hm Hv Hq Hf] H.
  destruct (listener_step_frame _ _ H) as (Hn & Hh & Hp & Hs & Hcv & Hi).
  constructor.
  - eapply main_ok_frame; eauto.
  - rewrite Hcv, Hv. symmetry. apply expected_view_frame; assumption.
  - rewrite Hi, Hq, Hn. reflexivity.
  - eapply listener_step_flag; eauto.
Qed.

Lemma main_step_inv (s s' : state) :
  Inv w s -> main_step w s = Some s' -> Inv w s'.
Proof.
  intros [Hm Hv Hq (Hw & Hn & Hs)] H.
  unfold main_step in H. unfold main_ok in Hm. unfold expected_view in Hv.
  destruct (mpc s) eqn:Hpc; try discriminate.
  - (* MStart *)
    destruct Hm as [H0 Hhf]. specialize (Hs eq_refl).
    rewrite Hs in Hw. simpl in Hw.
    inversion H; subst; clear H.
    constructor; unfold main_ok, expected_view, flag_ok; simpl.
    + split; [reflexivity|]. intros k Hk. lia.
    + rewrite controller_view_app, Hv. reflexivity.
    + rewrite invocations_app, Hq, H0. reflexivity.
    + rewrite flag_writes_app, Hn, Hw. simpl. split; [reflexivity|split; [reflexivity|discriminate]].
  - (* MLoopTest *)
    destruct Hm as [Hhf Hall].
    destruct (stop s) eqn:Hstop; inversion H; subst; clear H;
      (constructor; unfold main_ok, loop_left, expected_view, loop_exit, flag_ok; simpl;
       rewrite ?Hhf, ?Hstop;
       [ auto
       | rewrite controller_view_app, Hv; simpl; rewrite <- ?app_assoc; reflexivity
       | rewrite invocations_app, Hq; simpl; apply app_nil_r
       | rewrite flag_writes_app, Hn; simpl;
         (split; [assumption|split; [lia|discriminate]]) ]).
  - (* MLoopBody *)
    destruct Hm as [Hhf Hall].
    inversion H; subst; clear H.
    constructor; unfold main_ok, expected_view, flag_ok; simpl.
    + repeat split; [assumption|lia|assumption].
    + rewrite controller_view_app, Hv. simpl. rewrite <- !app_assoc. reflexivity.
    + rewrite invocations_app, Hq. cbn [invocations]. symmetry. apply seq_S.
    + rewrite flag_writes_app, Hn. simpl.
      (split; [assumption|split; [lia|discriminate]]).
  - (* MInvoking *)
    destruct Hm as (Hhf & Hpos & Hall).
    destruct (run_count s) as [|m] eqn:Hrc; [lia|]. cbn [pred] in Hall, Hv.
    destruct (subprocess_run w (S m)) as [rc out err|[|text]|] eqn:Hr; try discriminate;
      [destruct (rc =? 0)%Z eqn:Hz| |];
      inversion H; subst; clear H;
      (constructor;
       unfold main_ok, loop_left, expected_view, loop_exit, failed_iteration, flag_ok;
       cbn [mpc run_count has_failed stop lpc trace main_moves pred];
       rewrite ?Hhf, ?Hrc;
       [ | rewrite controller_view_app, Hv, ?passed_iterations_S;
           unfold passed_iteration; rewrite ?Hr;
           cbn [failure_report]; unfold print_captured;
           repeat match goal with
                  | |- context [print_raises w ?x] => destruct (print_raises w x)
                  end;
           cbn [controller_view filter by_controller];
           rewrite <- ?app_assoc; reflexivity
         | rewrite invocations_app, Hq; cbn [invocations failure_report];
           unfold print_captured;
           repeat match goal with
                  | |- context [print_raises w ?x] => destruct (print_raises w x)
                  end;
           cbn [invocations]; apply app_nil_r
         | rewrite flag_writes_app, Hn; cbn [flag_writes failure_report];
           unfold print_captured;
           repeat match goal with
                  | |- context [print_raises w ?x] => destruct (print_raises w x)
                  end;
           cbn [flag_writes];
           (split; [assumption|split; [lia|discriminate]]) ]).
    + split; [reflexivity|]. apply all_passed_S; [assumption|].
      rewrite Hr. simpl. assumption.
    + repeat split; [lia|assumption|]. rewrite Hr. simpl. rewrite Hz. reflexivity.
    + repeat split; [lia|assumption|]. rewrite Hr. reflexivity.
    + repeat split; [lia|assumption|]. rewrite Hr. reflexivity.
  - (* MSummary *)
    inversion H; subst; clear H.
    constructor; unfold main_ok, expected_view, flag_ok; simpl.
    + split; [reflexivity|]. unfold loop_left in *. simpl. exact Hm.
    + rewrite controller_view_app, Hv.
      replace (controller_view (summary (has_failed s) (run_count s)))
        with (summary (has_failed s) (run_count s))
        by (destruct (has_failed s); reflexivity).
      rewrite <- app_assoc. reflexivity.
    + rewrite invocations_app, Hq.
      replace (invocations (summary (has_failed s) (run_count s))) with (@nil nat)
        by (destruct (has_failed s); reflexivity).
      apply app_nil_r.
    + rewrite flag_writes_app, Hn.
      replace (flag_writes (summary (has_failed s) (run_count s))) with 0
        by (destruct (has_failed s); reflexivity).
      (split; [assumption|split; [lia|discriminate]]).
Qed.

Lemma step_inv (t : tid) (s s' : state) : Inv w s -> step w t s = Some s' -> Inv w s'.
Proof. destruct t; [apply main_step_inv|apply listener_step_inv]. Qed.

Lemma step_or_stay_inv (t : tid) (s : state) : Inv w s -> Inv w (step_or_stay w t s).
Proof.
  intros H. unfold step_or_stay.
  destruct (step w t s) eqn:E; [eapply step_inv; eauto|assumption].
Qed.

Lemma init_inv : Inv w init.
Proof.
  constructor; unfold main_ok, expected_view, flag_ok; simpl; auto.
Qed.

Lemma exec_inv (sched : list tid) (s : state) : Inv w s -> Inv w (exec w sched s).
Proof.
  revert s. induction sched as [|t sched IH]; intros s H; simpl; [assumption|].
  apply IH, step_or_stay_inv, H.
Qed.

Lemma reachable_inv (sched : list tid) : Inv w (exec w sched init).
Proof. apply exec_inv, init_inv. Qed.

(** ** Running on from a state *)

Lemma controller_turns_cons (t : tid) (sched : list tid) :
  controller_turns (t :: sched)
  = (if tid_eqb Controller t then 1 else 0) + controller_turns sched.
Proof. unfold controller_turns. destruct t; reflexivity. Qed.

(** After [sys.exit] nothing moves: the listener is a daemon thread. *)
Lemma exec_exited (sched : list tid) (s : state) (c : Z) :
  mpc s = MExited c -> exec w sched s = s.
Proof.
  intros Hc. induction sched as [|t sched IH]; simpl; [reflexivity|].
  replace (step_or_stay w t s) with s; [exact IH|].
  unfold step_or_stay, step, main_step, listener_step. rewrite Hc.
  destruct t; reflexivity.
Qed.

Lemma listener_stay_frame (s : state) :
  let s' := step_or_stay w Listener s in
  run_count s' = run_count s /\ has_failed s' = has_failed s /\ mpc s' = mpc s
  /\ (stop s = true -> stop s' = true).
Proof.
  unfold step_or_stay. simpl.
  destruct (listener_step w s) as [s'|] eqn:E; [|auto].
  destruct (listener_step_frame _ _ E) as (? & ? & ? & ? & _). auto.
Qed.

(** Past the loop, the controller's next turn is [sys.exit]. *)
Lemma exec_from_summary (sched : list tid) (s : state) :
  mpc s = MSummary -> 1 <= controller_turns sched ->
  let s' := exec w sched s in
  mpc s' = MExited (if has_failed s then 1 else 0)%Z
  /\ run_count s' = run_count s /\ has_failed s' = has_failed s.
Proof.
  revert s. induction sched as [|t sched IH]; intros s Hpc Hturns.
  - unfold controller_turns in Hturns. simpl in Hturns. lia.
  - rewrite controller_turns_cons in Hturns. destruct t; cbn [exec].
    + unfold step_or_stay, step, main_step. rewrite Hpc.
      erewrite exec_exited by reflexivity. simpl. auto.
    + destruct (listener_stay_frame s) as (Hn & Hh & Hp & _).
      simpl in Hturns.
      destruct (IH (step_or_stay w Listener s)) as (E1 & E2 & E3);
        [congruence|assumption|].
      cbv zeta. rewrite E1, E2, E3, Hn, Hh. auto.
Qed.

(** At the while test with the flag up, two turns of the controller leave the
    loop and exit. *)
Lemma exec_from_stopped_test (sched : list tid) (s : state) :
  mpc s = MLoopTest -> stop s = true -> 2 <= controller_turns sched ->
  let s' := exec w sched s in
  mpc s' = MExited (if has_failed s then 1 else 0)%Z
  /\ run_count s' = run_count s /\ has_failed s' = has_failed s.
Proof.
  revert s. induction sched as [|t sched IH]; intros s Hpc Hstop Hturns.
  - unfold controller_turns in Hturns. simpl in Hturns. lia.
  - rewrite controller_turns_cons in Hturns. destruct t; cbn [exec].
    + unfold step_or_stay, step, main_step. rewrite Hpc, Hstop.
      simpl in Hturns.
      apply (exec_from_summary sched
               (main_moves s (run_count s) (has_failed s) MSummary [EvFlagRead true]));
        [reflexivity|lia].
    + destruct (listener_stay_frame s) as (Hn & Hh & Hp & Hs).
      simpl in Hturns.
      destruct (IH (step_or_stay w Listener s)) as (E1 & E2 & E3);
        [congruence|auto|assumption|].
      cbv zeta. rewrite E1, E2, E3, Hn, Hh. auto.
Qed.

(** With an invocation in progress that is going to fail, two turns of the
    controller report the failure and exit. *)
Lemma exec_from_failing_invocation (sched : list tid) (s : state) :
  mpc s = MInvoking -> failed (subprocess_run w (run_count s)) = true ->
  2 <= controller_turns sched ->
  let s' := exec w sched s in
  mpc s' = MExited 1 /\ run_count s' = run_count s /\ has_failed s' = true.
Proof.
  revert s. induction sched as [|t sched IH]; intros s Hpc Hf Hturns.
  - unfold controller_turns in Hturns. simpl in Hturns. lia.
  - rewrite controller_turns_cons in Hturns. destruct t; cbn [exec].
    + simpl in Hturns.
      assert (Hstep : exists evs,
                 step_or_stay w Controller s
                 = main_moves s (run_count s) true MSummary evs).
      { unfold step_or_stay, step, main_step. rewrite Hpc. cbv zeta.
        destruct (subprocess_run w (run_count s)) as [rc out err|e|];
          simpl in Hf; try discriminate.
        - destruct (rc =? 0)%Z; [discriminate|]. eexists; reflexivity.
        - eexists; reflexivity. }
      destruct Hstep as [evs ->].
      apply (exec_from_summary sched (main_moves s (run_count s) true MSummary evs));
        [reflexivity|lia].
    + destruct (listener_stay_frame s) as (Hn & Hh & Hp & _).
      simpl in Hturns.
      destruct (IH (step_or_stay w Listener s)) as (E1 & E2 & E3);
        [congruence|rewrite Hn; assumption|assumption|].
      cbv zeta. rewrite E1, E2, E3, Hn. auto.
Qed.

(** ** Where an event can sit in the controller's view *)

Lemma in_view (e : event) (tr : list event) :
  by_controller e = true -> (In e (controller_view tr) <-> In e tr).
Proof.
  intros He. unfold controller_view. rewrite filter_In. tauto.
Qed.

Lemma in_invocations (k : nat) (tr : list event) :
  In k (invocations tr) <-> In (EvInvokeStart k) tr.
Proof.
  induction tr as [|e tr IH]; simpl; [tauto|].
  destruct e; simpl; rewrite IH;
    try (split; [auto|intros [H|H]; [discriminate|assumption]]).
  split; intros [H|H]; auto; left; congruence.
Qed.

Lemma in_passed_iterations (e : event) (n : nat) :
  In e (passed_iterations w n) ->
  exists k, 1 <= k <= n /\ In e (passed_iteration w k).
Proof.
  unfold passed_iterations. rewrite in_flat_map.
  intros (k & Hk & He). exists k. rewrite in_seq in Hk. split; [lia|assumption].
Qed.

Lemma in_failure_report (e : event) (r : run_result) :
  In e (failure_report w r) -> exists m, e = EvPrint Controller m.
Proof.
  destruct r as [rc out err|[|text]|]; simpl; unfold print_captured;
    repeat match goal with
           | |- context [print_raises w ?x] => destruct (print_raises w x)
           end;
    simpl; intros H;
    repeat (destruct H as [H|H]; [eexists; symmetry; exact H|]); contradiction.
Qed.

Lemma end_in_passed_iterations (n k : nat) (r : run_result) :
  In (EvInvokeEnd k r) (passed_iterations w n) ->
  1 <= k <= n /\ r = subprocess_run w k.
Proof.
  intros H. apply in_passed_iterations in H. destruct H as (j & Hj & H).
  in_explicit H. auto.
Qed.

Lemma end_in_failed_iteration (n k : nat) (r : run_result) :
  In (EvInvokeEnd k r) (failed_iteration w n) -> k = n /\ r = subprocess_run w n.
Proof.
  unfold failed_iteration. rewrite in_app_iff. intros [H|H]; [in_explicit H|].
  destruct H as [H|H]; [injection H as -> ->; auto|].
  apply in_failure_report in H. destruct H as [m H]. discriminate.
Qed.

Lemma end_in_summary (hf : bool) (n k : nat) (r : run_result) :
  ~ In (EvInvokeEnd k r) (summary hf n).
Proof. destruct hf; intros H; in_explicit H. Qed.

(** Every recorded result is the world's answer for that sequence number, and
    one that is a failure belongs to the last invocation started. *)
Lemma invocation_ends (s : state) (k : nat) (r : run_result) :
  Inv w s -> In (EvInvokeEnd k r) (trace s) ->
  r = subprocess_run w k /\ 1 <= k <= run_count s
  /\ (failed r = true -> k = run_count s /\ has_failed s = true).
Proof.
  intros [Hm Hv _ _] H.
  apply (in_view (EvInvokeEnd k r)) in H; [|reflexivity].
  rewrite Hv in H. unfold expected_view in H. unfold main_ok, loop_left in Hm.
  assert (Hpass : forall n, all_passed w n ->
            In (EvInvokeEnd k r) (passed_iterations w n) ->
            r = subprocess_run w k /\ 1 <= k <= n /\ failed r = false).
  { intros n Hall Hin. apply end_in_passed_iterations in Hin.
    destruct Hin as [Hk ->]. repeat split; try lia.
    apply passed_not_failed, Hall, Hk. }
  destruct (mpc s);
    [ contradiction
    | | | | unfold loop_exit in H | unfold loop_exit in H; destruct Hm as [_ Hm] ];
    try destruct (has_failed s);
    repeat (rewrite in_app_iff in H);
    repeat match type of H with
           | _ \/ _ => destruct H as [H|H]
           end;
    try (exfalso; revert H; apply end_in_summary);
    try (in_explicit H; fail);
    try (apply end_in_failed_iteration in H; destruct H as [-> ->];
         intuition lia);
    match type of H with
    | In _ (passed_iterations w ?n) =>
        destruct (Hpass n) as (? & ? & Hnf); [tauto|assumption|];
        rewrite Hnf; intuition (try discriminate; try lia)
    end.
Qed.

Lemma flag_read_in_summary (hf : bool) (n : nat) (b : bool) :
  ~ In (EvFlagRead b) (summary hf n).
Proof. destruct hf; intros H; in_explicit H. Qed.

Lemma true_read_in_passed_iterations (n : nat) :
  ~ In (EvFlagRead true) (passed_iterations w n).
Proof.
  intros H. apply in_passed_iterations in H. destruct H as (j & Hj & H).
  in_explicit H.
Qed.

Lemma true_read_in_failed_iteration (n : nat) :
  ~ In (EvFlagRead true) (failed_iteration w n).
Proof.
  unfold failed_iteration. rewrite in_app_iff. intros [H|H]; [in_explicit H|].
  destruct H as [H|H]; [discriminate|].
  apply in_failure_report in H. destruct H as [m H]. discriminate.
Qed.

(** The while test has read the flag as true only once the loop is left
    cleanly. *)
Lemma true_read_leaves_loop (s : state) :
  Inv w s -> In (EvFlagRead true) (trace s) ->
  has_failed s = false /\ stop s = true
  /\ (mpc s = MSummary \/ mpc s = MExited 0).
Proof.
  intros [Hm Hv _ _] H.
  apply (in_view (EvFlagRead true)) in H; [|reflexivity].
  rewrite Hv in H. unfold expected_view in H. unfold main_ok, loop_left in Hm.
  destruct (mpc s);
    [ contradiction
    | | | | unfold loop_exit in H | unfold loop_exit in H; destruct Hm as [-> Hm] ];
    try destruct (has_failed s);
    repeat (rewrite in_app_iff in H);
    repeat match type of H with
           | _ \/ _ => destruct H as [H|H]
           end;
    try (exfalso; revert H; apply flag_read_in_summary);
    try (exfalso; revert H; apply true_read_in_passed_iterations);
    try (exfalso; revert H; apply true_read_in_failed_iteration);
    try (in_explicit H; fail);
    tauto.
Qed.

(** A recorded failure means the loop has been left by [break], with
    [has_failed] set: the failing invocation is the last one started and all
    before it passed. *)
Lemma failure_leaves_loop (s : state) :
  Inv w s -> failure_recorded (trace s) ->
  has_failed s = true /\ 1 <= run_count s
  /\ all_passed w (pred (run_count s))
  /\ failed (subprocess_run w (run_count s)) = true
  /\ (mpc s = MSummary \/ mpc s = MExited 1).
Proof.
  intros HI (k & r & Hin & Hf).
  destruct (invocation_ends s k r HI Hin) as (_ & _ & Hlast).
  destruct (Hlast Hf) as [_ Hhf].
  destruct HI as [Hm _ _ _]. unfold main_ok, loop_left in Hm.
  destruct (mpc s); rewrite Hhf in Hm;
    try (destruct Hm as [Hm _]; discriminate);
    try (destruct Hm as [_ Hm]; discriminate);
    intuition (subst; auto).
Qed.

(** Past the loop the controller only exits; its counters stay. *)
Lemma exec_past_loop (sched : list tid) (s : state) :
  mpc s = MSummary \/ (exists c, mpc s = MExited c) ->
  let s' := exec w sched s in
  run_count s' = run_count s /\ has_failed s' = has_failed s
  /\ (mpc s' = mpc s \/ mpc s' = MExited (if has_failed s then 1 else 0)%Z).
Proof.
  revert s. induction sched as [|t sched IH]; intros s Hpc; [simpl; auto|].
  destruct Hpc as [Hpc|[c Hpc]];
    [|rewrite (exec_exited _ _ c Hpc); cbv zeta; auto].
  destruct t; cbn [exec].
  - unfold step_or_stay, step, main_step. rewrite Hpc.
    erewrite exec_exited by reflexivity. simpl. auto.
  - destruct (listener_stay_frame s) as (Hn & Hh & Hp & _).
    destruct (IH (step_or_stay w Listener s)) as (E1 & E2 & E3);
      [left; congruence|].
    cbv zeta. rewrite E1, E2, Hn, Hh.
    repeat split. rewrite Hh, Hp in E3. exact E3.
Qed.

Lemma step_budget (t : tid) (s : state) :
  stop s = true -> mpc s <> MStart ->
  let s' := step_or_stay w t s in
  stop s' = true /\ mpc s' <> MStart
  /\ run_count s' + pending_start s' <= run_count s + pending_start s.
Proof.
  intros Hstop Hpc. destruct t.
  - unfold step_or_stay, step, main_step, pending_start.
    destruct (mpc s) eqn:E; try contradiction; rewrite ?Hstop;
      try (destruct (subprocess_run w (run_count s)) as [rc out err|e|];
           [destruct (rc =? 0)%Z| |]);
      simpl; rewrite ?E;
      (split; [first [assumption|reflexivity]|split; [congruence|lia]]).
  - destruct (listener_stay_frame s) as (Hn & Hh & Hp & Hs).
    cbv zeta. unfold pending_start. rewrite Hn, Hp. auto.
Qed.

(** Once the flag is up, at most the pending invocation is still started. *)
Lemma exec_budget (sched : list tid) (s : state) :
  stop s = true -> mpc s <> MStart ->
  run_count (exec w sched s) <= run_count s + pending_start s.
Proof.
  revert s. induction sched as [|t sched IH]; intros s Hstop Hpc; simpl; [lia|].
  destruct (step_budget t s Hstop Hpc) as (H1 & H2 & H3).
  specialize (IH _ H1 H2). lia.
Qed.

Lemma exited_view (s : state) (c : Z) :
  Inv w s -> mpc s = MExited c ->
  controller_view (trace s)
  = prelude w ++ loop_exit w (has_failed s) (run_count s)
      ++ summary (has_failed s) (run_count s).
Proof.
  intros [_ Hv _ _] Hc. rewrite Hv. unfold expected_view. rewrite Hc. reflexivity.
Qed.

(** When invocation [N+1] is one that fails, seeing it started pins the
    controller down: it is in that invocation or has just left the loop
    because of it. *)
Lemma failing_run_started (s : state) (N : nat) :
  Inv w s -> failed (subprocess_run w (S N)) = true ->
  In (EvInvokeStart (S N)) (trace s) ->
  run_count s = S N
  /\ (mpc s = MInvoking
      \/ (has_failed s = true /\ (mpc s = MSummary \/ mpc s = MExited 1))).
Proof.
  intros [Hm _ Hq _] Hf Hin.
  apply in_invocations in Hin. rewrite Hq, in_seq in Hin.
  assert (Hno : forall n, all_passed w n -> S N <= n -> False).
  { intros n Hall Hle. specialize (Hall (S N)).
    apply passed_not_failed in Hall; [congruence|lia]. }
  unfold main_ok, loop_left in Hm.
  destruct (mpc s); try destruct (has_failed s);
    try (exfalso; apply (Hno (run_count s)); [tauto|lia]);
    try (exfalso; lia);
    try (destruct Hm as [? Hm]);
    (assert (run_count s = S N)
      by (destruct (Nat.eq_dec (run_count s) (S N)); [assumption|];
          exfalso; apply (Hno (pred (run_count s))); [tauto|lia]));
    subst; try discriminate; auto 6.
Qed.

Lemma failing_run_exits (sched' : list tid) (s : state) (N : nat) :
  Inv w s -> failed (subprocess_run w (S N)) = true ->
  In (EvInvokeStart (S N)) (trace s) ->
  2 <= controller_turns sched' ->
  let s' := exec w sched' s in
  mpc s' = MExited 1 /\ run_count s' = S N /\ has_failed s' = true.
Proof.
  intros HI Hf Hin Hturns.
  destruct (failing_run_started s N HI Hf Hin) as (Hn & [Hpc|(Hhf & [Hpc|Hpc])]).
  - destruct (exec_from_failing_invocation sched' s Hpc) as (E1 & E2 & E3);
      [rewrite Hn; assumption|assumption|].
    cbv zeta. rewrite E1, E2, E3. auto.
  - destruct (exec_from_summary sched' s Hpc) as (E1 & E2 & E3); [lia|].
    cbv zeta. rewrite E1, E2, E3, Hhf. auto.
  - cbv zeta. rewrite (exec_exited _ _ _ Hpc). auto.
Qed.

(** ** Clean stop *)

(** C1.  For every N: when the first N invocations all return exit status 0
    and the stop flag is set by the time the controller stands at the while
    test of iteration N+1, the process exits with status 0 (the controller
    needs two more turns: the test, then the summary), the summary line
    reports N runs and no other count, and exactly the invocations 1..N were
    made.  The controller's whole output is the prelude, N passed iterations,
    the final read of the flag and the summary. *)
Theorem clean_stop_after_passes (N : nat) (sched sched' : list tid) :
  let s := exec w sched init in
  all_passed w N ->
  mpc s = MLoopTest -> run_count s = N -> stop s = true ->
  2 <= controller_turns sched' ->
  let s' := exec w sched' s in
  mpc s' = MExited 0
  /\ invocations (trace s') = seq 1 N
  /\ controller_view (trace s')
     = prelude w ++ passed_iterations w N
       ++ [EvFlagRead true; EvPrint Controller MsgFinished;
           EvPrint Controller (MsgAllPassed N); EvExit 0]
  /\ In (EvPrint Controller (MsgAllPassed N)) (trace s')
  /\ (forall m, In (EvPrint Controller (MsgAllPassed m)) (trace s') -> m = N).
Proof.
  intros s _ Hpc Hn Hstop Hturns s'.
  assert (HI : Inv w s) by apply reachable_inv.
  assert (Hhf : has_failed s = false).
  { destruct HI as [Hm _ _ _]. unfold main_ok in Hm. rewrite Hpc in Hm. tauto. }
  destruct (exec_from_stopped_test sched' s Hpc Hstop Hturns) as (E1 & E2 & E3).
  fold s' in E1, E2, E3. rewrite Hhf in E1, E3. rewrite Hn in E2.
  assert (HI' : Inv w s') by apply exec_inv, HI.
  assert (Hview : controller_view (trace s')
                  = prelude w ++ passed_iterations w N
                    ++ [EvFlagRead true; EvPrint Controller MsgFinished;
                        EvPrint Controller (MsgAllPassed N); EvExit 0]).
  { rewrite (exited_view s' _ HI' E1), E2, E3. unfold loop_exit, summary.
    rewrite <- app_assoc. reflexivity. }
  split; [assumption|]. split; [rewrite (inv_seq _ _ HI'), E2; reflexivity|].
  split; [assumption|]. split.
  - apply (in_view (EvPrint Controller (MsgAllPassed N))); [reflexivity|].
    rewrite Hview, !in_app_iff. right. right. simpl. auto.
  - intros m Hin.
    apply (in_view (EvPrint Controller (MsgAllPassed m))) in Hin; [|reflexivity].
    rewrite Hview, !in_app_iff in Hin.
    destruct Hin as [Hin|[Hin|Hin]].
    + in_explicit Hin.
    + apply in_passed_iterations in Hin. destruct Hin as (j & _ & Hin).
      in_explicit Hin.
    + in_explicit Hin. reflexivity.
Qed.

(** ** Failure *)

(** C2, as amended.  For every N: when the first N invocations return exit
    status 0 and invocation N+1, once made, returns a non-zero status S with
    output [out] and [err], the loop makes exactly the invocations 1..N+1 and
    ends, the process exits with status 1 (given the controller two turns),
    and the report shows sequence number N+1 and status S.  After the STDOUT
    header it shows [out] and, after the STDERR header, [err], as captured
    and in this order, as far as printing them does not raise; where
    [print(process.stdout)] or [print(process.stderr)] raises, the report is
    cut there and the unexpected-error line with the exception's text takes
    the place of the rest.  The closing summary follows in every case. *)
Theorem failure_after_passes
  (N : nat) (S0 : Z) (out err : string) (sched sched' : list tid) :
  let s := exec w sched init in
  all_passed w N ->
  subprocess_run w (S N) = CompletedProcess S0 out err -> S0 <> 0%Z ->
  In (EvInvokeStart (S N)) (trace s) ->
  2 <= controller_turns sched' ->
  let s' := exec w sched' s in
  mpc s' = MExited 1
  /\ invocations (trace s') = seq 1 (S N)
  /\ controller_view (trace s')
     = prelude w ++ passed_iterations w N
       ++ [EvFlagRead false; EvPrint Controller (MsgRun (S N)); EvInvokeStart (S N);
           EvInvokeEnd (S N) (CompletedProcess S0 out err);
           EvPrint Controller (MsgFailed S0);
           EvPrint Controller MsgStdoutHeader]
       ++ match print_raises w out with
          | Some e => [EvPrint Controller (MsgUnexpected e)]
          | None =>
              [EvPrint Controller (MsgText out); EvPrint Controller MsgStderrHeader]
              ++ match print_raises w err with
                 | Some e => [EvPrint Controller (MsgUnexpected e)]
                 | None => [EvPrint Controller (MsgText err)]
                 end
          end
       ++ [EvPrint Controller MsgFinished; EvPrint Controller MsgFailureDetected;
           EvExit 1]
  /\ render (MsgText out) = out /\ render (MsgText err) = err.
Proof.
  intros s _ Hr HS Hin Hturns s'.
  assert (HI : Inv w s) by apply reachable_inv.
  assert (Hf : failed (subprocess_run w (S N)) = true).
  { rewrite Hr. simpl. destruct (Z.eqb_spec S0 0); [contradiction|reflexivity]. }
  destruct (failing_run_exits sched' s N HI Hf Hin Hturns) as (E1 & E2 & E3).
  fold s' in E1, E2, E3.
  assert (HI' : Inv w s') by apply exec_inv, HI.
  split; [assumption|]. split; [rewrite (inv_seq _ _ HI'), E2; reflexivity|].
  split; [|split; reflexivity].
  rewrite (exited_view s' _ HI' E1), E2, E3.
  unfold loop_exit, failed_iteration, summary. rewrite Hr.
  cbn [pred attempt failure_report]. unfold print_captured.
  destruct (print_raises w out); [|destruct (print_raises w err)];
    cbn [app]; rewrite <- ?app_assoc; reflexivity.
Qed.

(** C5, as amended.  When the command cannot be started (the first call of
    [subprocess.run] raises FileNotFoundError), a run makes zero or one
    invocation attempt.  If the process has exited after one attempt, no run
    completed, the error was reported once, no STDOUT or STDERR section was
    printed and the status is 1; if it has exited after no attempt, the while
    test read the flag as true the first time, nothing was reported and the
    status is 0 with 0 runs passed.  Once the first invocation has been
    started, the controller's next two turns lead to the exit with status
    1. *)
Theorem command_not_found (sched : list tid) :
  subprocess_run w 1 = RunRaises FileNotFoundError ->
  let s := exec w sched init in
  run_count s <= 1
  /\ (forall c, mpc s = MExited c ->
        (run_count s = 1 /\ c = 1%Z
         /\ controller_view (trace s)
            = prelude w
              ++ [EvFlagRead false; EvPrint Controller (MsgRun 1); EvInvokeStart 1;
                  EvInvokeEnd 1 (RunRaises FileNotFoundError);
                  EvPrint Controller (MsgNotFound (TEST_COMMAND w));
                  EvPrint Controller MsgHint;
                  EvPrint Controller MsgFinished;
                  EvPrint Controller MsgFailureDetected;
                  EvExit 1])
        \/ (run_count s = 0 /\ c = 0%Z
            /\ controller_view (trace s)
               = prelude w
                 ++ [EvFlagRead true; EvPrint Controller MsgFinished;
                     EvPrint Controller (MsgAllPassed 0); EvExit 0]))
  /\ (In (EvInvokeStart 1) (trace s) ->
      forall sched', 2 <= controller_turns sched' ->
        let s' := exec w sched' s in
        mpc s' = MExited 1 /\ run_count s' = 1 /\ invocations (trace s') = [1]
        /\ controller_view (trace s')
           = prelude w
             ++ [EvFlagRead false; EvPrint Controller (MsgRun 1); EvInvokeStart 1;
                 EvInvokeEnd 1 (RunRaises FileNotFoundError);
                 EvPrint Controller (MsgNotFound (TEST_COMMAND w));
                 EvPrint Controller MsgHint;
                 EvPrint Controller MsgFinished;
                 EvPrint Controller MsgFailureDetected;
                 EvExit 1]).
Proof.
  intros Hr s.
  assert (HI : Inv w s) by apply reachable_inv.
  assert (Hf : failed (subprocess_run w 1) = true) by (rewrite Hr; reflexivity).
  assert (Hno : forall n, all_passed w n -> n = 0).
  { intros n Hall. destruct n as [|n]; [reflexivity|].
    specialize (Hall 1). apply passed_not_failed in Hall; [congruence|lia]. }
  pose proof (inv_main _ _ HI) as Hm. unfold main_ok, loop_left in Hm.
  split; [|split].
  - destruct (mpc s); try destruct (has_failed s);
      try (destruct Hm as [? Hm]);
      try lia;
      try (rewrite (Hno (run_count s)); [lia|tauto]);
      (assert (Hp : pred (run_count s) = 0) by (apply Hno; tauto); lia).
  - intros c Hc. rewrite Hc in Hm. destruct Hm as [-> Hm].
    pose proof (exited_view s _ HI Hc) as Hview.
    destruct (has_failed s).
    + left. destruct Hm as (Hpos & Hall & _).
      assert (Hn : run_count s = 1) by (apply Hno in Hall; lia).
      split; [assumption|]. split; [reflexivity|].
      rewrite Hview, Hn. unfold loop_exit, failed_iteration, summary.
      rewrite Hr. reflexivity.
    + right. destruct Hm as [Hall _].
      assert (Hn : run_count s = 0) by (apply Hno, Hall).
      split; [assumption|]. split; [reflexivity|].
      rewrite Hview, Hn. reflexivity.
  - intros Hin sched' Hturns s'.
    destruct (failing_run_exits sched' s 0 HI Hf Hin Hturns) as (E1 & E2 & E3).
    fold s' in E1, E2, E3.
    assert (HI' : Inv w s') by apply exec_inv, HI.
    split; [assumption|]. split; [assumption|].
    split; [rewrite (inv_seq _ _ HI'), E2; reflexivity|].
    rewrite (exited_view s' _ HI' E1), E2, E3.
    unfold loop_exit, failed_iteration, summary. rewrite Hr. reflexivity.
Qed.

(** ** Exit status *)

(** C3.  Whenever the harness has exited, its status is 0 or 1: 0 exactly when
    the loop was left by the while test reading the flag as true with every
    invocation made having returned 0 (no failure recorded), and 1 exactly
    when the last invocation made failed, in one of three ways: it returned a
    non-zero status, the command could not be started, or another error was
    raised. *)
Theorem exit_status_mapping (sched : list tid) (c : Z) :
  let s := exec w sched init in
  mpc s = MExited c ->
  (c = 0%Z /\ has_failed s = false /\ all_passed w (run_count s)
   /\ ~ failure_recorded (trace s) /\ In (EvFlagRead true) (trace s))
  \/ (c = 1%Z /\ has_failed s = true
      /\ In (EvInvokeEnd (run_count s) (subprocess_run w (run_count s))) (trace s)
      /\ ((exists rc out err,
              subprocess_run w (run_count s) = CompletedProcess rc out err
              /\ rc <> 0%Z)
          \/ subprocess_run w (run_count s) = RunRaises FileNotFoundError
          \/ (exists text,
                subprocess_run w (run_count s) = RunRaises (OtherException text)))).
Proof.
  intros s Hc.
  assert (HI : Inv w s) by apply reachable_inv.
  pose proof (exited_view s c HI Hc) as Hview.
  pose proof (inv_main _ _ HI) as Hm. unfold main_ok in Hm. rewrite Hc in Hm.
  destruct Hm as [-> Hm]. unfold loop_left in Hm.
  destruct (has_failed s) eqn:Hhf.
  - right. destruct Hm as (Hpos & Hall & Hf).
    split; [reflexivity|]. split; [reflexivity|]. split.
    + apply (in_view (EvInvokeEnd (run_count s) (subprocess_run w (run_count s))));
        [reflexivity|].
      rewrite Hview. unfold loop_exit, failed_iteration.
      rewrite !in_app_iff. right. left. right. right. simpl. auto.
    + destruct (subprocess_run w (run_count s)) as [rc out err|[|text]|];
        simpl in Hf; try discriminate; eauto.
      left. exists rc, out, err. split; [reflexivity|].
      intros ->. discriminate.
  - left. destruct Hm as [Hall Hstop].
    split; [reflexivity|]. split; [reflexivity|]. split; [assumption|]. split.
    + intros (k & r & Hin & Hf).
      destruct (invocation_ends s k r HI Hin) as (_ & _ & Hlast).
      destruct (Hlast Hf) as [_ Habs]. congruence.
    + apply (in_view (EvFlagRead true)); [reflexivity|].
      rewrite Hview. unfold loop_exit. rewrite !in_app_iff.
      right. left. right. simpl. auto.
Qed.

(** ** Cooperative cancellation *)

(** C6, as amended.  Once the controller has read the flag as true it starts
    no invocation; once the flag is true it starts at most the one invocation
    whose while test it had already passed; and while an invocation is in
    progress a step of the listener (the flag write included) leaves the
    controller where it is, and the controller's next step records the result
    and handles it in full (pass line, or failure report with [has_failed] set
    and the loop left) whatever the flag is, without reading it. *)
Theorem cooperative_stop (sched : list tid) :
  let s := exec w sched init in
  (In (EvFlagRead true) (trace s) ->
   forall sched', invocations (trace (exec w sched' s)) = invocations (trace s))
  /\ (stop s = true ->
      forall sched',
        List.length (invocations (trace (exec w sched' s)))
        <= List.length (invocations (trace s)) + pending_start s)
  /\ (mpc s = MInvoking ->
      (forall s', listener_step w s = Some s' ->
                  mpc s' = MInvoking /\ run_count s' = run_count s
                  /\ has_failed s' = has_failed s
                  /\ controller_view (trace s') = controller_view (trace s))
      /\ (forall s', main_step w s = Some s' ->
                     let r := subprocess_run w (run_count s) in
                     trace s'
                     = trace s ++ EvInvokeEnd (run_count s) r
                         :: (if passed r then [EvPrint Controller MsgPassed]
                             else failure_report w r)
                     /\ has_failed s' = failed r
                     /\ mpc s' = (if passed r then MLoopTest else MSummary))).
Proof.
  intros s.
  assert (HI : Inv w s) by apply reachable_inv.
  split; [|split].
  - intros Hread sched'.
    destruct (true_read_leaves_loop s HI Hread) as (_ & _ & Hpc).
    assert (HI' : Inv w (exec w sched' s)) by apply exec_inv, HI.
    rewrite (inv_seq _ _ HI'), (inv_seq _ _ HI).
    destruct (exec_past_loop sched' s) as (E & _); [|rewrite E; reflexivity].
    destruct Hpc as [Hpc|Hpc]; eauto.
  - intros Hstop sched'.
    assert (HI' : Inv w (exec w sched' s)) by apply exec_inv, HI.
    rewrite (inv_seq _ _ HI'), (inv_seq _ _ HI), !length_seq.
    apply exec_budget; [assumption|].
    intros Hpc. destruct (inv_flag _ _ HI) as (Hw & _ & Hs).
    rewrite (Hs Hpc) in Hw. simpl in Hw. congruence.
  - intros Hpc. split.
    + intros s' Hstep.
      destruct (listener_step_frame _ _ Hstep) as (? & ? & ? & _ & ? & _).
      repeat split; congruence.
    + intros s' Hstep r.
      pose proof (inv_main _ _ HI) as Hm. unfold main_ok in Hm. rewrite Hpc in Hm.
      destruct Hm as (Hhf & _).
      unfold main_step in Hstep. rewrite Hpc in Hstep. cbv zeta in Hstep.
      fold r in Hstep.
      destruct r as [rc out err|e|] eqn:Hr; try discriminate;
        [destruct (rc =? 0)%Z eqn:Hz|];
        inversion Hstep; subst s'; simpl; rewrite ?Hz, ?Hhf; auto.
Qed.

(** ** Fail-fast *)

(** C7.  A recorded result that is a failure (a non-zero status, the command
    not started, or any other error raised by the call) belongs to the last
    invocation started and every earlier invocation passed; [has_failed] is
    set and the loop has been left on that iteration; and however the run
    goes on, no invocation is started again: the invocations stay 1..k, and
    the controller's next turn exits with status 1. *)
Theorem fail_fast (sched : list tid) (k : nat) (r : run_result) :
  let s := exec w sched init in
  In (EvInvokeEnd k r) (trace s) -> failed r = true ->
  r = subprocess_run w k /\ k = run_count s /\ all_passed w (pred k)
  /\ has_failed s = true
  /\ (mpc s = MSummary \/ mpc s = MExited 1)
  /\ forall sched',
       let s' := exec w sched' s in
       invocations (trace s') = seq 1 k
       /\ has_failed s' = true
       /\ (mpc s' = MSummary \/ mpc s' = MExited 1)
       /\ (1 <= controller_turns sched' -> mpc s' = MExited 1).
Proof.
  intros s Hin Hf.
  assert (HI : Inv w s) by apply reachable_inv.
  destruct (invocation_ends s k r HI Hin) as (Hr & _ & Hlast).
  destruct (Hlast Hf) as [Hk _].
  destruct (failure_leaves_loop s HI) as (Hhf & _ & Hall & _ & Hpc);
    [exists k, r; auto|].
  rewrite <- Hk in Hall.
  repeat (split; [assumption|]).
  intros sched' s'.
  assert (HI' : Inv w s') by apply exec_inv, HI.
  destruct (exec_past_loop sched' s) as (E1 & E2 & E3);
    [destruct Hpc as [Hpc|Hpc]; eauto|].
  fold s' in E1, E2, E3. rewrite Hhf in E2, E3.
  split; [rewrite (inv_seq _ _ HI'), E1, Hk; reflexivity|].
  split; [assumption|]. split.
  - destruct E3 as [E3|E3]; [rewrite E3; assumption|auto].
  - intros Hturns. destruct Hpc as [Hpc|Hpc].
    + destruct (exec_from_summary sched' s Hpc Hturns) as (E & _).
      fold s' in E. rewrite Hhf in E. exact E.
    + unfold s'. rewrite (exec_exited _ _ _ Hpc). exact Hpc.
Qed.

(** ** The flag and the sequence numbers *)

(** C8.  The flag starts false; a step that changes it is a step of the
    listener and takes it from false to true; once true it stays true; the
    write happens at most once in a run (the trace holds one write when the
    flag is true and none when it is false).  The invocations started carry
    the sequence numbers 1, 2, ..., [run_count] in this order, each one
    printed in the run header just before the invocation starts. *)
Theorem flag_and_sequence_numbers (sched : list tid) :
  let s := exec w sched init in
  stop init = false
  /\ (forall t s', step w t s = Some s' ->
                   (stop s = true -> stop s' = true)
                   /\ (stop s' <> stop s ->
                       t = Listener /\ stop s = false /\ stop s' = true))
  /\ flag_writes (trace s) = (if stop s then 1 else 0)
  /\ invocations (trace s) = seq 1 (run_count s)
  /\ (forall s', main_step w s = Some s' -> mpc s = MLoopBody ->
                 run_count s' = S (run_count s)
                 /\ trace s'
                    = trace s ++ [EvPrint Controller (MsgRun (S (run_count s)));
                                  EvInvokeStart (S (run_count s))]).
Proof.
  intros s.
  assert (HI : Inv w s) by apply reachable_inv.
  split; [reflexivity|]. split; [|split; [|split]].
  - intros t s' Hstep. destruct t; simpl in Hstep.
    + apply main_step_stop in Hstep. rewrite Hstep. split; [auto|congruence].
    + destruct (listener_step_frame _ _ Hstep) as (_ & _ & _ & Hmono & _).
      split; [assumption|]. intros Hne.
      destruct (stop s) eqn:Hs.
      * rewrite (Hmono eq_refl) in Hne. congruence.
      * destruct (stop s'); [auto|congruence].
  - apply (inv_flag _ _ HI).
  - apply (inv_seq _ _ HI).
  - intros s' Hstep Hpc. unfold main_step in Hstep. rewrite Hpc in Hstep.
    inversion Hstep. simpl. auto.
Qed.

(** ** Failure before cancellation *)

(** C9.  Once an invocation has ended in failure (a non-zero status or an
    error raised), no continuation of the run exits with status 0, whatever
    the flag is and whenever the listener raised it, and the controller's
    next turn exits with status 1.  The flag enters the controller's steps
    only at the while test: at any other point the controller does the same
    whatever the flag's value. *)
Theorem failure_beats_stop (sched : list tid) :
  let s := exec w sched init in
  (failure_recorded (trace s) ->
   forall sched',
     let s' := exec w sched' s in
     mpc s' <> MExited 0
     /\ (1 <= controller_turns sched' -> mpc s' = MExited 1))
  /\ (forall (s0 : state) (b : bool),
        mpc s0 <> MLoopTest ->
        main_step w (set_stop b s0) = option_map (set_stop b) (main_step w s0)).
Proof.
  intros s. split.
  - intros Hfail sched' s'.
    assert (HI : Inv w s) by apply reachable_inv.
    destruct (failure_leaves_loop s HI Hfail) as (Hhf & _ & _ & _ & Hpc).
    destruct (exec_past_loop sched' s) as (_ & _ & E3);
      [destruct Hpc as [Hpc|Hpc]; eauto|].
    fold s' in E3. rewrite Hhf in E3. split.
    + destruct E3 as [E3|E3]; rewrite E3; [|discriminate].
      destruct Hpc as [-> | ->]; discriminate.
    + intros Hturns. destruct Hpc as [Hpc|Hpc].
      * destruct (exec_from_summary sched' s Hpc Hturns) as (E & _).
        fold s' in E. rewrite Hhf in E. exact E.
      * unfold s'. rewrite (exec_exited _ _ _ Hpc). exact Hpc.
  - intros s0 b Hpc. unfold main_step, set_stop. simpl.
    destruct (mpc s0); try contradiction; try reflexivity.
    destruct (subprocess_run w (run_count s0)) as [rc out err|e|];
      [destruct (rc =? 0)%Z| |]; reflexivity.
Qed.

End Harness.

(** * The listener without a keypress *)

(** C4 (the code departs from the claim).  With standard input not a terminal
    and at end of file, the listener does fall back to [input()], but
    [input()] raises EOFError and the outer [finally] sets the flag all the
    same: the flag is true, no operator input is in the trace, and the
    controller, given its turns, stops cleanly with status 0 after 0 runs.
    Without a [termios] module the fallback is not even reached: the except
    clause itself raises UnboundLocalError, and the flag is set again with no
    input read, although a line was there to be read. *)
Theorem listener_sets_flag_without_input :
  (let s := exec passes_without_terminal ([Controller] ++ keypress) init in
   listener_setup (term passes_without_terminal) = LInput
   /\ stop s = true
   /\ lpc s = LPrint (Some EOFError)
   /\ existsb operator_input (trace s) = false
   /\ mpc (exec passes_without_terminal [Controller; Controller] s) = MExited 0
   /\ run_count (exec passes_without_terminal [Controller; Controller] s) = 0)
  /\ (let s := exec passes_without_termios [Controller; Listener; Listener] init in
      listener_setup (term passes_without_termios) = LSetFlag (Some UnboundLocalError)
      /\ stop s = true
      /\ lpc s = LPrint (Some UnboundLocalError)
      /\ existsb operator_input (trace s) = false).
Proof. vm_compute. repeat split. Qed.

(** * Concrete runs *)

(** Five passing runs, then a key: exit status 0, "All 5 runs passed". *)
Lemma clean_stop_after_passes_witness :
  let s := exec always_passes ([Controller] ++ iterations 5 ++ keypress) init in
  (mpc s = MLoopTest /\ run_count s = 5 /\ stop s = true)
  /\ let s' := exec always_passes [Controller; Controller] s in
     mpc s' = MExited 0
     /\ invocations (trace s') = [1; 2; 3; 4; 5]
     /\ In (EvPrint Controller (MsgAllPassed 5)) (trace s').
Proof.
  split; [vm_compute; auto|].
  destruct (clean_stop_after_passes always_passes 5
              ([Controller] ++ iterations 5 ++ keypress) [Controller; Controller])
    as (H1 & H2 & _ & H4 & _);
    [ intros k _; reflexivity | reflexivity | reflexivity | reflexivity
    | vm_compute; lia | ].
  auto.
Defined.

(** Runs 1 to 3 pass, run 4 exits 2 with "assertion failed" on stderr, and a
    key is pressed while run 4 is in progress: exit status 1, run 4 reported. *)
Lemma failure_after_passes_witness :
  let s := exec fourth_run_fails
             ([Controller] ++ iterations 3 ++ [Controller; Controller]) init in
  In (EvInvokeStart 4) (trace s)
  /\ let s' := exec fourth_run_fails (keypress ++ [Controller; Controller]) s in
     mpc s' = MExited 1
     /\ invocations (trace s') = [1; 2; 3; 4]
     /\ In (EvPrint Controller (MsgFailed 2)) (trace s')
     /\ In (EvPrint Controller (MsgText "assertion failed")) (trace s').
Proof.
  split; [in_trace|].
  destruct (failure_after_passes fourth_run_fails 3 2 "1 failed" "assertion failed"
              ([Controller] ++ iterations 3 ++ [Controller; Controller])
              (keypress ++ [Controller; Controller]))
    as (H1 & H2 & _);
    [ intros k Hk; destruct k as [|[|[|[|k]]]]; try reflexivity; lia
    | reflexivity | discriminate | in_trace | vm_compute; lia | ].
  split; [exact H1|]. split; [exact H2|]. split; in_trace.
Defined.

(** Run 4 fails: the process has exited with status 1. *)
Lemma exit_status_mapping_witness :
  let s := exec fourth_run_fails
             ([Controller] ++ iterations 4 ++ [Controller]) init in
  mpc s = MExited 1 /\ has_failed s = true /\ run_count s = 4.
Proof.
  split; [reflexivity|].
  destruct (exit_status_mapping fourth_run_fails
              ([Controller] ++ iterations 4 ++ [Controller]) 1 eq_refl)
    as [(H0 & _)|(_ & Hhf & _)]; [discriminate H0|].
  split; [exact Hhf|reflexivity].
Defined.

(** The interpreter named by [sys.executable] does not exist. *)
Lemma command_not_found_witness :
  let s := exec command_missing [Controller; Controller; Controller] init in
  In (EvInvokeStart 1) (trace s)
  /\ let s' := exec command_missing [Controller; Controller] s in
     mpc s' = MExited 1 /\ run_count s' = 1 /\ invocations (trace s') = [1].
Proof.
  split; [in_trace|].
  destruct (command_not_found command_missing
              [Controller; Controller; Controller] eq_refl)
    as (_ & _ & H).
  destruct (H ltac:(in_trace) [Controller; Controller] ltac:(vm_compute; lia))
    as (H1 & H2 & H3 & _).
  auto.
Defined.

(** C5 as stated fails: the interpreter does not exist, the key is read
    before the first while test, and the process exits with status 0 after no
    attempt, with nothing reported. *)
Lemma command_missing_clean_exit_counterexample :
  ~ (forall (w : world) (sched : list tid) (c : Z),
       subprocess_run w 1 = RunRaises FileNotFoundError ->
       let s := exec w sched init in
       mpc s = MExited c ->
       c = 1%Z /\ run_count s <= 1
       /\ In (EvPrint Controller (MsgNotFound (TEST_COMMAND w))) (trace s)).
Proof.
  intros H.
  specialize (H command_missing_with_key
                ([Controller] ++ keypress ++ [Controller; Controller]) 0%Z
                eq_refl eq_refl).
  destruct H as [H _]. discriminate H.
Qed.

(** C2 as stated fails: run 1 exits with status 3 and printing its stdout
    raises; the report stops after the STDOUT header, and neither the stdout
    nor the stderr of the run is printed. *)
Lemma failure_report_cut_counterexample :
  ~ (forall (w : world) (N : nat) (S0 : Z) (out err : string)
            (sched sched' : list tid),
       let s := exec w sched init in
       all_passed w N ->
       subprocess_run w (S N) = CompletedProcess S0 out err -> S0 <> 0%Z ->
       In (EvInvokeStart (S N)) (trace s) ->
       2 <= controller_turns sched' ->
       let s' := exec w sched' s in
       mpc s' = MExited 1
       /\ invocations (trace s') = seq 1 (S N)
       /\ In (EvPrint Controller (MsgRun (S N))) (trace s')
       /\ In (EvPrint Controller (MsgFailed S0)) (trace s')
       /\ In (EvPrint Controller (MsgText out)) (trace s')
       /\ In (EvPrint Controller (MsgText err)) (trace s')).
Proof.
  intros H.
  assert (Hin : In (EvInvokeStart 1)
                  (trace (exec unprintable_stdout
                            [Controller; Controller; Controller] init)))
    by in_trace.
  assert (Hturns : 2 <= controller_turns [Controller; Controller])
    by (vm_compute; lia).
  specialize (H unprintable_stdout 0 3%Z "1 failed"%string "assertion failed"%string
                [Controller; Controller; Controller] [Controller; Controller]).
  cbv zeta in H.
  destruct H as (_ & _ & _ & _ & _ & H);
    [intros k Hk; lia|reflexivity|discriminate|exact Hin|exact Hturns|].
  vm_compute in H.
  repeat (destruct H as [H|H]; [discriminate H|]). contradiction.
Qed.

(** C6 as stated fails: the controller reads the flag as false, the key
    arrives and the listener sets the flag, and the controller's next step
    starts invocation 1 with the flag true. *)
Lemma start_after_stop_counterexample :
  ~ (forall (w : world) (sched : list tid) (t : tid),
       let s := exec w sched init in
       stop s = true ->
       invocations (trace (step_or_stay w t s)) = invocations (trace s)).
Proof.
  intros H.
  specialize (H always_passes ([Controller; Controller] ++ keypress) Controller eq_refl).
  vm_compute in H. discriminate H.
Qed.

(** The three parts of the amended C6 at three points of one run: the flag
    set between the while test and the start of run 1; the flag set while
    run 1 is in progress; the flag read as true. *)
Lemma cooperative_stop_witness :
  (let s := exec always_passes ([Controller; Controller] ++ keypress) init in
   stop s = true /\ pending_start s = 1
   /\ List.length (invocations (trace (exec always_passes iteration s))) <= 1)
  /\ (let s := exec always_passes
                 ([Controller; Controller; Controller] ++ [Listener; Listener]) init in
      mpc s = MInvoking
      /\ (forall s', listener_step always_passes s = Some s' -> mpc s' = MInvoking)
      /\ (forall s', main_step always_passes s = Some s' -> mpc s' = MLoopTest))
  /\ (let s := exec always_passes
                 ([Controller] ++ iteration ++ keypress ++ [Controller]) init in
      In (EvFlagRead true) (trace s)
      /\ invocations (trace (exec always_passes iteration s)) = [1]).
Proof.
  split; [|split].
  - destruct (cooperative_stop always_passes ([Controller; Controller] ++ keypress))
      as (_ & H & _).
    split; [reflexivity|]. split; [reflexivity|].
    exact (H eq_refl iteration).
  - destruct (cooperative_stop always_passes
                ([Controller; Controller; Controller] ++ [Listener; Listener]))
      as (_ & _ & H).
    destruct (H eq_refl) as [HL HM].
    split; [reflexivity|]. split.
    + intros s' Hs. exact (proj1 (HL s' Hs)).
    + intros s' Hs. exact (proj2 (proj2 (HM s' Hs))).
  - destruct (cooperative_stop always_passes
                ([Controller] ++ iteration ++ keypress ++ [Controller]))
      as (H & _).
    assert (Hin : In (EvFlagRead true)
                    (trace (exec always_passes
                              ([Controller] ++ iteration ++ keypress ++ [Controller])
                              init))) by in_trace.
    split; [exact Hin|].
    rewrite (H Hin iteration). reflexivity.
Defined.

(** Run 4 of [fourth_run_fails] ends the loop. *)
Lemma fail_fast_witness :
  let s := exec fourth_run_fails ([Controller] ++ iterations 4) init in
  In (EvInvokeEnd 4 (CompletedProcess 2 "1 failed" "assertion failed")) (trace s)
  /\ has_failed s = true
  /\ invocations (trace (exec fourth_run_fails (iterations 2) s)) = [1; 2; 3; 4].
Proof.
  assert (Hin : In (EvInvokeEnd 4 (CompletedProcess 2 "1 failed" "assertion failed"))
                  (trace (exec fourth_run_fails ([Controller] ++ iterations 4) init)))
    by in_trace.
  destruct (fail_fast fourth_run_fails ([Controller] ++ iterations 4) 4
              (CompletedProcess 2 "1 failed" "assertion failed") Hin eq_refl)
    as (_ & _ & _ & Hhf & _ & Hnext).
  split; [exact Hin|]. split; [exact Hhf|].
  exact (proj1 (Hnext (iterations 2))).
Defined.

(** The listener's write is the step that changes the flag. *)
Lemma flag_and_sequence_numbers_witness :
  let s := exec always_passes ([Controller] ++ iteration ++ [Listener; Listener]) init in
  exists s', step always_passes Listener s = Some s'
             /\ stop s = false /\ stop s' = true
             /\ invocations (trace s) = [1].
Proof.
  destruct (flag_and_sequence_numbers always_passes
              ([Controller] ++ iteration ++ [Listener; Listener]))
    as (_ & Hstep & _ & Hseq & _).
  eexists. split; [reflexivity|].
  destruct (Hstep Listener _ eq_refl) as [_ Hchange].
  destruct Hchange as (_ & H0 & H1); [vm_compute; discriminate|].
  split; [exact H0|]. split; [exact H1|]. exact Hseq.
Defined.

(** Run 4 fails after the key was pressed during it: exit status 1, not 0. *)
Lemma failure_beats_stop_witness :
  let s := exec fourth_run_fails
             ([Controller] ++ iterations 3 ++ [Controller; Controller]
              ++ keypress ++ [Controller]) init in
  stop s = true
  /\ failure_recorded (trace s)
  /\ mpc (exec fourth_run_fails [Controller] s) = MExited 1.
Proof.
  assert (Hfail : failure_recorded
                    (trace (exec fourth_run_fails
                              ([Controller] ++ iterations 3 ++ [Controller; Controller]
                               ++ keypress ++ [Controller]) init))).
  { exists 4, (CompletedProcess 2 "1 failed" "assertion failed").
    split; [in_trace|reflexivity]. }
  destruct (failure_beats_stop fourth_run_fails
              ([Controller] ++ iterations 3 ++ [Controller; Controller]
               ++ keypress ++ [Controller])) as [H _].
  split; [reflexivity|]. split; [exact Hfail|].
  apply (H Hfail [Controller]). vm_compute. lia.
Defined.

(** * Further properties of the harness *)

Section Further.

Variable w : world.

Lemma main_step_shape (s s' : state) :
  main_step w s = Some s' ->
  exists evs, trace s' = trace s ++ evs
              /\ forallb by_controller evs = true
              /\ (lpc s' = lpc s \/ (mpc s = MStart /\ lpc s' = LSetup)).
Proof.
  unfold main_step. intros H.
  destruct (mpc s) eqn:Hpc; try discriminate;
    [ | destruct (stop s)
      | | destruct (subprocess_run w (run_count s)) as [rc out err|[|text]|];
          [destruct (rc =? 0)%Z| | |]
      | destruct (has_failed s) ];
    try discriminate;
    inversion H; subst; clear H; simpl;
    eexists;
    (split;
     [ reflexivity
     | split;
       [ unfold print_captured;
         repeat match goal with
                | |- context [print_raises w ?x] => destruct (print_raises w x)
                end;
         reflexivity
       | auto ] ]).
Qed.

Lemma exec_reachable (P : state -> Prop) :
  P init ->
  (forall t s s', Inv w s -> P s -> step w t s = Some s' -> P s') ->
  forall sched, P (exec w sched init).
Proof.
  intros H0 Hstep sched.
  assert (H : forall s, Inv w s -> P s -> Inv w (exec w sched s) /\ P (exec w sched s)).
  { induction sched as [|t sched IH]; intros s HI HP; simpl; [auto|].
    apply IH.
    - apply step_or_stay_inv, HI.
    - unfold step_or_stay. destruct (step w t s) eqn:E; [eapply Hstep; eauto|exact HP]. }
  apply H; [apply init_inv|exact H0].
Qed.

(** ** When the flag cannot come up *)

Lemma waiting_flag_down (s : state) :
  Inv w s -> waiting (lpc s) = true -> stop s = false.
Proof.
  intros HI Hw. destruct (inv_flag _ _ HI) as (Hs & _). rewrite Hs.
  destruct (lpc s); simpl in *; congruence.
Qed.

Lemma stays_waiting :
  (forall s s', waiting (lpc s) = true -> listener_step w s = Some s' ->
                waiting (lpc s') = true) ->
  forall sched, waiting (lpc (exec w sched init)) = true.
Proof.
  intros Hl.
  apply (exec_reachable (fun s => waiting (lpc s) = true)); [reflexivity|].
  intros t s s' _ Hw Hstep. destruct t; simpl in Hstep.
  - destruct (main_step_shape _ _ Hstep) as (_ & _ & _ & [E|[_ E]]);
      rewrite E; auto.
  - eapply Hl; eauto.
Qed.

Lemma exit_zero_needs_flag (s : state) :
  Inv w s -> stop s = false -> forall c, mpc s = MExited c -> c = 1%Z.
Proof.
  intros HI Hs c Hc. pose proof (inv_main _ _ HI) as Hm.
  unfold main_ok, loop_left in Hm. rewrite Hc in Hm.
  destruct Hm as [-> Hm]. destruct (has_failed s); [reflexivity|].
  destruct Hm as [_ Hm]. congruence.
Qed.

Lemma blocked_listener_closed :
  listener_setup (term w) = LReadKey \/ listener_setup (term w) = LInput ->
  stdin_read1 (term w) = NeverArrives ->
  input_line (term w) = NeverArrives ->
  forall s s', waiting (lpc s) = true -> listener_step w s = Some s' ->
               waiting (lpc s') = true.
Proof.
  intros Hsetup Hread Hline s s' Hw Hstep. unfold listener_step in Hstep.
  rewrite Hread, Hline in Hstep.
  destruct (mpc s); try discriminate;
    (destruct (lpc s); try discriminate;
     inversion Hstep; subst; simpl;
     destruct Hsetup as [-> | ->]; reflexivity).
Qed.

Lemma flag_write_counted (tr : list event) : In EvFlagWrite tr -> 1 <= flag_writes tr.
Proof.
  induction tr as [|e tr IH]; simpl; [contradiction|].
  intros [->|H]; [lia|]. specialize (IH H). destruct e; lia.
Qed.

Lemma flag_write_present (tr : list event) : 1 <= flag_writes tr -> In EvFlagWrite tr.
Proof.
  induction tr as [|e tr IH]; simpl; [lia|].
  destruct e; auto.
Qed.

(** X1.  When the listener gets as far as one of its blocking reads
    ([sys.stdin.read(1)], or [input()] in the fallback) and nothing ever
    arrives there, the flag is never set in any interleaving: the harness
    cannot stop cleanly, and if it exits at all it is with status 1 after a
    failure. *)
Theorem cancellation_unreachable (sched : list tid) :
  listener_setup (term w) = LReadKey \/ listener_setup (term w) = LInput ->
  stdin_read1 (term w) = NeverArrives ->
  input_line (term w) = NeverArrives ->
  let s := exec w sched init in
  stop s = false
  /\ ~ In EvFlagWrite (trace s)
  /\ ~ In (EvFlagRead true) (trace s)
  /\ (forall c, mpc s = MExited c -> c = 1%Z /\ has_failed s = true).
Proof.
  intros Hsetup Hread Hline s.
  assert (HI : Inv w s) by apply reachable_inv.
  assert (Hw : waiting (lpc s) = true)
    by (apply stays_waiting, blocked_listener_closed; assumption).
  pose proof (waiting_flag_down s HI Hw) as Hstop.
  split; [assumption|]. split; [|split].
  - intros Hin. apply flag_write_counted in Hin.
    destruct (inv_flag _ _ HI) as (_ & Hn & _). rewrite Hn, Hstop in Hin. lia.
  - intros Hin. destruct (true_read_leaves_loop w s HI Hin) as (_ & Habs & _).
    congruence.
  - intros c Hc. split; [eapply exit_zero_needs_flag; eauto|].
    pose proof (inv_main _ _ HI) as Hm. unfold main_ok, loop_left in Hm.
    rewrite Hc in Hm. destruct Hm as [_ Hm].
    destruct (has_failed s); [reflexivity|]. destruct Hm as [_ Hm]. congruence.
Qed.



(** ** An invocation that never returns *)

Lemma hung_step (t : tid) (s : state) :
  mpc s = MInvoking -> subprocess_run w (run_count s) = RunHangs ->
  let s' := step_or_stay w t s in
  mpc s' = MInvoking /\ run_count s' = run_count s
  /\ has_failed s' = has_failed s
  /\ controller_view (trace s') = controller_view (trace s).
Proof.
  intros Hpc Hr. destruct t.
  - unfold step_or_stay, step, main_step. rewrite Hpc. cbv zeta. rewrite Hr.
    auto.
  - unfold step_or_stay. simpl.
    destruct (listener_step w s) as [s'|] eqn:E; [|auto].
    destruct (listener_step_frame w _ _ E) as (? & ? & ? & _ & ? & _).
    repeat split; congruence.
Qed.

(** X3.  When the invocation in progress never returns, the controller stays
    in it for good in every continuation: it prints nothing more, starts
    nothing and does not exit, also when the key is pressed meanwhile. *)
Theorem hung_invocation_blocks (sched sched' : list tid) :
  let s := exec w sched init in
  mpc s = MInvoking -> subprocess_run w (run_count s) = RunHangs ->
  let s' := exec w sched' s in
  mpc s' = MInvoking /\ run_count s' = run_count s
  /\ has_failed s' = has_failed s
  /\ controller_view (trace s') = controller_view (trace s).
Proof.
  intros s. generalize s. clear s.
  induction sched' as [|t sched' IH]; intros s Hpc Hr; simpl; [auto|].
  destruct (hung_step t s Hpc Hr) as (E1 & E2 & E3 & E4).
  destruct (IH (step_or_stay w t s)) as (F1 & F2 & F3 & F4);
    [assumption|rewrite E2; assumption|].
  repeat split; congruence.
Qed.

(** ** The listener's acknowledgement and its input *)

Lemma controller_events_no_acknowledgement (evs : list event) :
  forallb by_controller evs = true -> acknowledgements evs = 0.
Proof.
  unfold acknowledgements.
  induction evs as [|e evs IH]; simpl; [reflexivity|].
  intros H. apply andb_prop in H. destruct H as [He H].
  destruct e as [[|] m| | | | | | | |]; simpl in *; try discriminate; auto.
Qed.

Lemma acknowledgements_app (a b : list event) :
  acknowledgements (a ++ b) = acknowledgements a + acknowledgements b.
Proof. unfold acknowledgements. rewrite filter_app, length_app. reflexivity. Qed.

Lemma acknowledgement_counted (tr : list event) :
  In (EvPrint Listener MsgKeypress) tr -> 1 <= acknowledgements tr.
Proof.
  unfold acknowledgements. intros H.
  assert (Hin : In (EvPrint Listener MsgKeypress) (filter is_acknowledgement tr))
    by (apply filter_In; split; [assumption|reflexivity]).
  destruct (filter is_acknowledgement tr); [contradiction|simpl; lia].
Qed.

Lemma unwritten_unfinished (pc : listener_pc) :
  flag_written pc = false -> finished pc = false.
Proof. destruct pc; simpl; congruence. Qed.

Lemma acknowledgements_by_pc (sched : list tid) :
  let s := exec w sched init in
  acknowledgements (trace s) = (if finished (lpc s) then 1 else 0).
Proof.
  apply (exec_reachable
           (fun s => acknowledgements (trace s) = (if finished (lpc s) then 1 else 0)));
    [reflexivity|].
  intros t s s' HI HP Hstep. destruct t; simpl in Hstep.
  - destruct (main_step_shape _ _ Hstep) as (evs & -> & Hevs & Hl).
    rewrite acknowledgements_app, HP, (controller_events_no_acknowledgement _ Hevs).
    destruct Hl as [->|[Hpc ->]]; [lia|].
    destruct (inv_flag _ _ HI) as (_ & _ & Hs). rewrite (Hs Hpc). reflexivity.
  - unfold listener_step in Hstep.
    destruct (mpc s); try discriminate;
      (destruct (lpc s) eqn:Hl; try discriminate;
       [ | destruct (stdin_read1 (term w)); try discriminate
         | destruct (input_line (term w)); try discriminate | | ];
       inversion Hstep; subst; clear Hstep; simpl in *;
       rewrite ?acknowledgements_app, ?HP; simpl;
       rewrite ?(unwritten_unfinished _ (listener_setup_unwritten _)),
         ?(unwritten_unfinished _ (leave_inner_try_unwritten _ _));
       reflexivity).
Qed.

(** X4.  "Keypress detected" is printed at most once in a run, by the
    listener when it finishes, and only with the flag already set. *)
Theorem acknowledgement_follows_flag (sched : list tid) :
  let s := exec w sched init in
  acknowledgements (trace s) <= 1
  /\ (In (EvPrint Listener MsgKeypress) (trace s) ->
      stop s = true /\ In EvFlagWrite (trace s) /\ finished (lpc s) = true).
Proof.
  intros s. pose proof (acknowledgements_by_pc sched) as Hack. fold s in Hack.
  assert (HI : Inv w s) by apply reachable_inv.
  split; [rewrite Hack; destruct (finished (lpc s)); lia|].
  intros Hin. apply acknowledgement_counted in Hin. rewrite Hack in Hin.
  destruct (finished (lpc s)) eqn:Hf; [|lia].
  destruct (inv_flag _ _ HI) as (Hs & Hn & _).
  assert (Hstop : stop s = true)
    by (rewrite Hs; destruct (lpc s); simpl in *; congruence).
  split; [assumption|]. split; [|reflexivity].
  apply flag_write_present. rewrite Hn, Hstop. lia.
Qed.

Lemma except_clause_not_clean (b : bool) (e : listener_error) :
  finishing_cleanly (except_clause b e) = false.
Proof. destruct b, e; reflexivity. Qed.

Lemma leave_with_error_not_clean (t : terminal) (e : listener_error) :
  finishing_cleanly (leave_inner_try t (Some e)) = false.
Proof.
  unfold leave_inner_try, inner_finally.
  destruct (tcsetattr t); apply except_clause_not_clean.
Qed.

Lemma listener_setup_not_clean (t : terminal) :
  finishing_cleanly (listener_setup t) = false.
Proof.
  unfold listener_setup.
  repeat match goal with
         | |- context [match ?x with Ok => _ | Raises _ => _ end] => destruct x
         end;
    auto using except_clause_not_clean, leave_with_error_not_clean.
Qed.

(** X5.  The listener reaches its [finally] with no exception pending only
    after [sys.stdin.read(1)] or [input()] has returned: in every reachable
    state where it sets (or has set) the flag cleanly, the trace holds a key
    or a line that was read. *)
Theorem clean_finish_after_input (sched : list tid) :
  let s := exec w sched init in
  finishing_cleanly (lpc s) = true -> existsb is_input (trace s) = true.
Proof.
  apply (exec_reachable
           (fun s => finishing_cleanly (lpc s) = true ->
                     existsb is_input (trace s) = true));
    [discriminate|].
  intros t s s' HI HP Hstep. destruct t; simpl in Hstep.
  - destruct (main_step_shape _ _ Hstep) as (evs & -> & _ & Hl).
    rewrite existsb_app. destruct Hl as [->|[_ ->]]; [|discriminate].
    intros Hc. rewrite (HP Hc). reflexivity.
  - unfold listener_step in Hstep.
    destruct (mpc s); try discriminate;
      (destruct (lpc s) eqn:Hl; try discriminate;
       [ | destruct (stdin_read1 (term w)); try discriminate
         | destruct (input_line (term w)); try discriminate | | ];
       inversion Hstep; subst; clear Hstep; simpl in *;
       rewrite ?existsb_app; simpl;
       rewrite ?listener_setup_not_clean, ?leave_with_error_not_clean;
       try discriminate;
       try (intros _; apply orb_true_r);
       try (intros Hc; rewrite (HP Hc); reflexivity)).
Qed.



(** ** A key press on a working terminal *)

Lemma listener_turns_cons (t : tid) (sched : list tid) :
  listener_turns (t :: sched)
  = (if tid_eqb Listener t then 1 else 0) + listener_turns sched.
Proof. unfold listener_turns. destruct t; reflexivity. Qed.

Lemma main_step_not_start (s s' : state) : main_step w s = Some s' -> mpc s' <> MStart.
Proof.
  unfold main_step. intros E.
  destruct (mpc s);
    [ | destruct (stop s)
      | | destruct (subprocess_run w (run_count s)) as [rc out err|e|];
          [destruct (rc =? 0)%Z| |]
      | | ];
    try discriminate; inversion E; simpl; discriminate.
Qed.

Lemma key_path_step (c : string) (s s' : state) :
  terminal_ready (term w) ->
  stdin_read1 (term w) = Arrives c ->
  tcsetattr (term w) = Ok ->
  on_key_path (lpc s) = true -> listener_step w s = Some s' ->
  on_key_path (lpc s') = true
  /\ steps_to_flag (lpc s') = pred (steps_to_flag (lpc s)).
Proof.
  intros (H1 & H2 & H3 & H4 & H5) Hread Hrestore Hpath Hstep.
  unfold listener_step in Hstep. rewrite Hread in Hstep.
  destruct (mpc s); try discriminate;
    (destruct (lpc s) as [| | | |q|q|q]; simpl in Hpath;
     try discriminate; try (destruct q; try discriminate);
     inversion Hstep; subst; simpl;
     unfold listener_setup, leave_inner_try, inner_finally;
     rewrite ?H1, ?H2, ?H3, ?H4, ?H5, ?Hrestore; simpl; auto).
Qed.

Lemma key_path_advances (c : string) (sched : list tid) :
  terminal_ready (term w) ->
  stdin_read1 (term w) = Arrives c ->
  tcsetattr (term w) = Ok ->
  forall s,
    mpc s <> MStart -> on_key_path (lpc s) = true ->
    steps_to_flag (lpc s) <= listener_turns sched ->
    flag_written (lpc (exec w sched s)) = true
    \/ exists code, mpc (exec w sched s) = MExited code.
Proof.
  intros Hready Hread Hrestore.
  induction sched as [|t sched IH]; intros s Hpc Hpath Hturns.
  - left. unfold listener_turns in Hturns. simpl in *.
    destruct (lpc s) as [| | | |q|q|q]; simpl in *;
      try discriminate; try lia; reflexivity.
  - rewrite listener_turns_cons in Hturns. cbn [exec].
    destruct t; cbn [tid_eqb] in Hturns.
    + unfold step_or_stay. simpl.
      destruct (main_step w s) as [s1|] eqn:E; [|apply IH; assumption].
      assert (Hl : lpc s1 = lpc s).
      { destruct (main_step_shape _ _ E) as (_ & _ & _ & [Hl|[Habs _]]);
          [assumption|contradiction]. }
      apply IH; rewrite ?Hl; try assumption.
      eapply main_step_not_start; eauto.
    + unfold step_or_stay. simpl.
      destruct (listener_step w s) as [s1|] eqn:E.
      * destruct (key_path_step c s s1 Hready Hread Hrestore Hpath E) as [Hp Hr].
        destruct (listener_step_frame w _ _ E) as (_ & _ & Hm & _).
        apply IH; [congruence|assumption|lia].
      * unfold listener_step in E. rewrite Hread in E.
        destruct (mpc s) eqn:Hm; try contradiction;
          try (right; exists code; rewrite (exec_exited w _ _ code); assumption);
          (destruct (lpc s) as [| | | |q|q|q] eqn:Hl; simpl in Hpath;
           try discriminate;
           apply IH; rewrite ?Hl, ?Hm; try assumption; try discriminate;
           simpl; lia).
Qed.

Lemma key_path_kept (c : string) (sched : list tid) :
  terminal_ready (term w) ->
  stdin_read1 (term w) = Arrives c ->
  tcsetattr (term w) = Ok ->
  let s := exec w sched init in
  (mpc s = MStart /\ lpc s = LNotStarted)
  \/ (mpc s <> MStart /\ on_key_path (lpc s) = true).
Proof.
  intros Hready Hread Hrestore.
  apply (exec_reachable
           (fun s => (mpc s = MStart /\ lpc s = LNotStarted)
                     \/ (mpc s <> MStart /\ on_key_path (lpc s) = true)));
    [left; split; reflexivity|].
  intros t s s' _ HP Hstep. destruct t; simpl in Hstep.
  - right. split; [eapply main_step_not_start; eauto|].
    destruct (main_step_shape _ _ Hstep) as (_ & _ & _ & [Hl|[_ Hl]]);
      rewrite Hl; [|reflexivity].
    destruct HP as [[Hm _]|[_ Hp]]; [|assumption].
    unfold main_step in Hstep. rewrite Hm in Hstep.
    inversion Hstep; subst; simpl in Hl. rewrite <- Hl. reflexivity.
  - destruct HP as [[_ Hl]|[Hm Hp]].
    + unfold listener_step in Hstep. rewrite Hl in Hstep.
      destruct (mpc s); discriminate.
    + right. destruct (listener_step_frame w _ _ Hstep) as (_ & _ & Hm' & _).
      split; [congruence|].
      eapply key_path_step; eauto.
Qed.

(** X13.  On a working terminal where a key arrives and the terminal settings
    are restored, three turns of the listener after the thread was started
    set the stop flag, unless the process has exited first; this holds for
    every interleaving with the controller. *)
Theorem keypress_sets_flag (c : string) (sched sched' : list tid) :
  terminal_ready (term w) ->
  stdin_read1 (term w) = Arrives c ->
  tcsetattr (term w) = Ok ->
  let s := exec w sched init in
  mpc s <> MStart ->
  3 <= listener_turns sched' ->
  let s' := exec w sched' s in
  stop s' = true \/ exists code, mpc s' = MExited code.
Proof.
  intros Hready Hread Hrestore s Hpc Hturns s'.
  assert (HI' : Inv w s') by apply exec_inv, reachable_inv.
  destruct (inv_flag _ _ HI') as (Hs & _). rewrite Hs.
  destruct (key_path_kept c sched Hready Hread Hrestore) as [[Hm _]|[_ Hpath]];
    [contradiction|].
  apply (key_path_advances c sched' Hready Hread Hrestore s Hpc Hpath).
  fold s in Hpath.
  destruct (lpc s) as [| | | |q|q|q]; simpl; lia.
Qed.

End Further.

(** * run_tests.py and build.py *)

Section Scripts.

Import Script.

Variable o : os.

Lemma actions_bind {A B : Type} (m : script A) (k : A -> script B) :
  actions (bind m k)
  = match snd m with
    | inl a => actions m ++ actions (k a)
    | inr _ => actions m
    end.
Proof. unfold bind, actions. destruct (snd m); reflexivity. Qed.

Lemma calls_app (a b : list action) : calls (a ++ b) = calls a ++ calls b.
Proof.
  induction a as [|x a IH]; simpl; [reflexivity|].
  destruct x; simpl; rewrite IH; reflexivity.
Qed.

Lemma removals_app (a b : list action) : removals (a ++ b) = removals a ++ removals b.
Proof.
  induction a as [|x a IH]; simpl; [reflexivity|].
  destruct x; simpl; rewrite IH; reflexivity.
Qed.

(** [run_command] calls its command once, removes nothing, and returns only
    when the command exits with status 0; otherwise the script ends with
    status 1. *)
Lemma run_command_spec (command : list string) :
  calls (actions (run_command o command)) = [command]
  /\ removals (actions (run_command o command)) = []
  /\ (if succeeds o command
      then snd (run_command o command) = inl tt
      else status (run_command o command) = 1%Z
           /\ exists e, snd (run_command o command) = inr e).
Proof.
  unfold run_command, succeeds, status.
  destruct (run o command) as [rc out err| |];
    [destruct (rc =? 0)%Z| |]; cbv [bind print act ret sys_exit uncaught actions fst snd app];
    simpl; repeat split; eauto.
Qed.

(** ** run_tests.py *)


(** ** build.py *)

Lemma run_command_removals (command : list string) :
  removals (actions (run_command o command)) = [].
Proof. apply run_command_spec. Qed.

(** X10.  [build.py conan] attempts the Conan install, the CMake configure
    and the CMake build in this order, each one only if all before it
    succeeded, and removes nothing.  It exits with status 0 exactly when all
    three succeed, and exactly then prints the closing line; otherwise the
    status is 1. *)
Theorem conan_build_fail_fast (a : Build.args) :
  let r := Build.handle_conan o a in
  let cmds := [Build.conan_install_cmd a; Build.cmake_config_cmd o a;
               Build.cmake_build_cmd a] in
  calls (actions r) = attempted o cmds
  /\ removals (actions r) = []
  /\ (status r = 0%Z \/ status r = 1%Z)
  /\ (status r = 0%Z <-> forallb (succeeds o) cmds = true)
  /\ (In (Print Stdout "--- Conan build finished successfully ---") (actions r)
      <-> status r = 0%Z).
Proof.
  intros r cmds.
  unfold r, cmds, Build.handle_conan, Build.configure_and_build, run_command,
    succeeds, status.
  cbn [attempted forallb]. unfold succeeds.
  destruct (run o (Build.conan_install_cmd a)) as [rc1 ? ?| |];
    [destruct (rc1 =? 0)%Z| |];
    try (destruct (run o (Build.cmake_config_cmd o a)) as [rc2 ? ?| |];
         [destruct (rc2 =? 0)%Z| |];
         try (destruct (run o (Build.cmake_build_cmd a)) as [rc3 ? ?| |];
              [destruct (rc3 =? 0)%Z| |]));
    script_compute;
    (split; [reflexivity|]); (split; [reflexivity|]);
    (split; [auto|]); (split; [intuition discriminate|]);
    (split; [|try discriminate; intros _; simpl; tauto]);
    intros H; in_actions H; reflexivity.
Qed.

(** X11.  [build.py cmake] runs nothing and exits with status 1 when the
    toolchain file is missing; when it is there, it attempts the CMake
    configure and then, only if that succeeded, the CMake build.  The status is
    0 exactly when the file exists and both commands succeed; nothing is
    removed; and the toolchain file handed to the configure command is the
    one whose existence was checked. *)
Theorem cmake_build_needs_toolchain (a : Build.args) :
  let r := Build.handle_cmake o a in
  let cmds := [Build.cmake_config_cmd o a; Build.cmake_build_cmd a] in
  calls (actions r)
  = (if path_exists o (Build.toolchain_file o a) then attempted o cmds else [])
  /\ removals (actions r) = []
  /\ (status r = 0%Z \/ status r = 1%Z)
  /\ (status r = 0%Z
      <-> path_exists o (Build.toolchain_file o a) = true
          /\ forallb (succeeds o) cmds = true)
  /\ In ("-DCMAKE_TOOLCHAIN_FILE=" ++ Build.toolchain_file o a)%string
        (Build.cmake_config_cmd o a).
Proof.
  intros r cmds.
  unfold r, cmds, Build.handle_cmake, Build.configure_and_build, run_command,
    succeeds, status.
  cbn [attempted forallb]. unfold succeeds.
  destruct (path_exists o (Build.toolchain_file o a));
    [destruct (run o (Build.cmake_config_cmd o a)) as [rc2 ? ?| |];
     [destruct (rc2 =? 0)%Z| |];
     try (destruct (run o (Build.cmake_build_cmd a)) as [rc3 ? ?| |];
          [destruct (rc3 =? 0)%Z| |])|];
    script_compute;
    (split; [reflexivity|]); (split; [reflexivity|]);
    (split; [auto|]); (split; [intuition discriminate|]);
    unfold Build.cmake_config_cmd; simpl; tauto.
Qed.

(** X12.  Of the three subcommands of build.py only [clean] deletes, and it
    runs no command: it calls [shutil.rmtree] on the build directory alone
    and only if that is a directory, and [os.remove] on CMakeUserPresets.json
    alone and only if that exists.  It prints "Clean finished" exactly when
    it exits with status 0, which it does unless a removal raises. *)
Theorem build_main_removals (a : Build.args) :
  let r := Build.main o a in
  match Build.command a with
  | Build.Clean =>
      calls (actions r) = []
      /\ (forall path, In (RmTree path) (actions r) ->
                       path = Build.build_dir a /\ path_isdir o path = true)
      /\ (forall path, In (Remove path) (actions r) ->
                       path = "CMakeUserPresets.json"%string
                       /\ path_exists o path = true)
      /\ (status r = 0%Z \/ status r = 1%Z)
      /\ (In (Print Stdout "--- Clean finished ---") (actions r) <-> status r = 0%Z)
  | _ => removals (actions r) = []
  end.
Proof.
  intros r. unfold r, Build.main.
  destruct (Build.command a).
  - unfold Build.handle_conan, Build.configure_and_build.
    rewrite !actions_bind.
    repeat match goal with
           | |- context [snd ?m] => destruct (snd m)
           end;
      rewrite ?removals_app, ?run_command_removals; reflexivity.
  - unfold Build.handle_cmake, Build.configure_and_build.
    destruct (path_exists o (Build.toolchain_file o a)); cbn [negb];
      [|reflexivity].
    rewrite !actions_bind.
    repeat match goal with
           | |- context [snd ?m] => destruct (snd m)
           end;
      rewrite ?removals_app, ?run_command_removals; reflexivity.
  - unfold Build.handle_clean, status.
    destruct (path_isdir o (Build.build_dir a)) eqn:Hdir;
      [destruct (rmtree_ok o (Build.build_dir a))|];
      try (destruct (path_exists o "CMakeUserPresets.json") eqn:Hex;
           [destruct (remove_ok o "CMakeUserPresets.json")|]);
      script_compute;
      (split; [reflexivity|]);
      (split; [intros path H; in_actions H; injection H as <-; auto|]);
      (split; [intros path H; in_actions H; injection H as <-; auto|]);
      (split; [auto|]);
      (split; [|try discriminate; intros _; simpl; tauto]);
      intros H; in_actions H; reflexivity.
Qed.

End Scripts.

(** * The harness over run_tests.py *)



(** * Concrete runs for the further properties *)

(** No key is ever pressed and every run passes. *)
Lemma cancellation_unreachable_witness :
  let s := exec silent_passes ([Controller; Listener] ++ iterations 4 ++ keypress) init in
  stop s = false /\ run_count s = 4.
Proof.
  destruct (cancellation_unreachable silent_passes
              ([Controller; Listener] ++ iterations 4 ++ keypress))
    as (H & _); [left; reflexivity|reflexivity|reflexivity|].
  split; [exact H|reflexivity].
Defined.


(** The third run hangs; the key is pressed; the controller gets two more
    turns and stays where it is. *)
Lemma hung_invocation_blocks_witness :
  let s := exec third_run_hangs
             ([Controller] ++ iterations 2 ++ [Controller; Controller]) init in
  let s' := exec third_run_hangs (keypress ++ [Controller; Controller]) s in
  run_count s = 3 /\ stop s' = true /\ mpc s' = MInvoking.
Proof.
  destruct (hung_invocation_blocks third_run_hangs
              ([Controller] ++ iterations 2 ++ [Controller; Controller])
              (keypress ++ [Controller; Controller]))
    as (H & _); [reflexivity|reflexivity|].
  split; [reflexivity|]. split; [reflexivity|exact H].
Defined.

(** The key is pressed and acknowledged. *)
Lemma acknowledgement_follows_flag_witness :
  let s := exec always_passes ([Controller] ++ keypress ++ [Listener]) init in
  In (EvPrint Listener MsgKeypress) (trace s) /\ stop s = true.
Proof.
  assert (Hin : In (EvPrint Listener MsgKeypress)
                  (trace (exec always_passes
                            ([Controller] ++ keypress ++ [Listener]) init)))
    by in_trace.
  destruct (acknowledgement_follows_flag always_passes
              ([Controller] ++ keypress ++ [Listener])) as (_ & H).
  split; [exact Hin|exact (proj1 (H Hin))].
Defined.

(** Standard input is a pipe with a line in it: the fallback reads the line
    and goes on to set the flag. *)
Lemma clean_finish_after_input_witness :
  let s := exec piped_line [Controller; Listener; Listener] init in
  lpc s = LSetFlag None /\ existsb is_input (trace s) = true.
Proof.
  split; [reflexivity|].
  apply (clean_finish_after_input piped_line [Controller; Listener; Listener]).
  reflexivity.
Defined.




(** Conan works, the configure step fails: the build step is not attempted. *)
Lemma conan_build_fail_fast_witness :
  Script.calls (Script.actions (Build.handle_conan configure_fails_os
                                  (release_build Build.Conan)))
  = [Build.conan_install_cmd (release_build Build.Conan);
     Build.cmake_config_cmd configure_fails_os (release_build Build.Conan)]
  /\ Script.status (Build.handle_conan configure_fails_os (release_build Build.Conan))
     = 1%Z.
Proof.
  destruct (conan_build_fail_fast configure_fails_os (release_build Build.Conan))
    as (Hcalls & _ & [H|H] & _); [discriminate H|].
  split; [exact Hcalls|exact H].
Defined.

(** No toolchain file: nothing is run. *)
Lemma cmake_build_needs_toolchain_witness :
  Script.calls (Script.actions (Build.handle_cmake bare_os (release_build Build.Cmake)))
  = []
  /\ Script.status (Build.handle_cmake bare_os (release_build Build.Cmake)) = 1%Z.
Proof.
  destruct (cmake_build_needs_toolchain bare_os (release_build Build.Cmake))
    as (Hcalls & _ & [H|H] & _); [discriminate H|].
  split; [exact Hcalls|exact H].
Defined.

(** Cleaning a built tree. *)
Lemma build_main_removals_witness :
  Script.removals (Script.actions (Build.main (built_os 0) (release_build Build.Clean)))
  = ["build"; "CMakeUserPresets.json"]%string
  /\ Script.calls (Script.actions (Build.main (built_os 0) (release_build Build.Clean)))
     = [].
Proof.
  pose proof (build_main_removals (built_os 0) (release_build Build.Clean)) as H.
  simpl in H. destruct H as (Hcalls & _).
  split; [reflexivity|exact Hcalls].
Defined.

(** The key is pressed during the first run. *)
Lemma keypress_sets_flag_witness :
  let s := exec always_passes [Controller] init in
  let s' := exec always_passes ([Controller; Controller] ++ keypress) s in
  mpc s = MLoopTest /\ stop s' = true /\ mpc s' = MInvoking.
Proof.
  split; [reflexivity|].
  destruct (keypress_sets_flag always_passes "q" [Controller]
              ([Controller; Controller] ++ keypress))
    as [H|[code H]];
    [repeat split; reflexivity|reflexivity|reflexivity|discriminate
    |vm_compute; lia| |discriminate H].
  split; [exact H|reflexivity].
Defined.
